(** * lru_dict: a dict/stack implementation of LRU

    Shallow embedding of [src/lru_dict/lru_dict.py] and the properties its
    specification states about it.

    The Python object has three attributes: the private [__size], the list
    [_stack] (access order, oldest first) and the dict [_data].  Methods are
    embedded in a state-and-exception monad over that record, so that a
    method that raises half-way keeps the mutations it already made, as the
    Python object does. *)

From stdpp Require Import base gmap list.
From Stdlib Require Import ZArith Lia.

Local Open Scope Z_scope.
Set Warnings "-clear-no-such-hyp".

(** ** Python exceptions and results *)

Inductive exn : Type :=
| ValueError
| KeyError
| IndexError.

Inductive outcome (A : Type) : Type :=
| Return (a : A)
| Raise (e : exn).
Arguments Return {A} a.
Arguments Raise {A} e.

(** ** Python list primitives used by the class *)

Module PyList.
Section list_ops.
Context {A : Type} `{EqDecision A}.

(** [l.index(x)]: position of the first element equal to [x]. *)
Fixpoint index (x : A) (l : list A) : option nat :=
  match l with
  | [] => None
  | y :: l' => if decide (y = x) then Some O else S <$> index x l'
  end.

(** [l.pop(i)] for an index [i >= 0]: the element and the remaining list. *)
Definition pop (i : nat) (l : list A) : option (A * list A) :=
  match l !! i with
  | Some x => Some (x, delete i l)
  | None => None
  end.

(** [l[i]] with Python's negative indices. *)
Definition item (i : Z) (l : list A) : option A :=
  let n := Z.of_nat (length l) in
  let j := if bool_decide (i < 0) then i + n else i in
  if bool_decide (0 <= j < n) then l !! Z.to_nat j else None.

(** Clamping of a slice bound, as [PySlice_AdjustIndices] does for step 1. *)
Definition adjust (len : nat) (i : Z) : nat :=
  let n := Z.of_nat len in
  if bool_decide (i < 0)
  then Z.to_nat (Z.max 0 (i + n))
  else Z.to_nat (Z.min i n).

(** [l[:stop]] *)
Definition slice_to (stop : Z) (l : list A) : list A :=
  take (adjust (length l) stop) l.

(** [l[start:]] *)
Definition slice_from (start : Z) (l : list A) : list A :=
  drop (adjust (length l) start) l.
End list_ops.
End PyList.

(** ** The class *)

Module LruDict.
Section lru_dict.
Context {K V : Type} `{Countable K} `{EqDecision V}.

Record lru_dict : Type := Build {
  __size : Z;
  _stack : list K;
  _data : gmap K V
}.

(** Methods: a state transformer that returns or raises. *)
Definition M (A : Type) : Type := lru_dict → outcome A * lru_dict.

Definition ret {A} (a : A) : M A := λ s, (Return a, s).
Definition raise {A} (e : exn) : M A := λ s, (Raise e, s).
Definition bind {A B} (m : M A) (f : A → M B) : M B :=
  λ s, match m s with
       | (Return a, s') => f a s'
       | (Raise e, s') => (Raise e, s')
       end.

Notation "x <- m ; f" := (bind m (λ x, f))
  (at level 100, m at next level, right associativity, only parsing).
Notation "m ;; f" := (bind m (λ _, f))
  (at level 100, right associativity, only parsing).

(** [for x in l: body(x)] *)
Fixpoint for_ {A} (l : list A) (body : A → M unit) : M unit :=
  match l with
  | [] => ret tt
  | x :: l' => body x ;; for_ l' body
  end.

(** [[body(x) for x in l]] *)
Fixpoint collect {A B} (l : list A) (body : A → M B) : M (list B) :=
  match l with
  | [] => ret []
  | x :: l' => y <- body x; ys <- collect l' body; ret (y :: ys)
  end.

(** Attribute reads and writes. *)
Definition get_stack : M (list K) := λ s, (Return (_stack s), s).
Definition set_stack (l : list K) : M unit :=
  λ s, (Return tt, Build (__size s) l (_data s)).
Definition get_data : M (gmap K V) := λ s, (Return (_data s), s).
Definition set_data (d : gmap K V) : M unit :=
  λ s, (Return tt, Build (__size s) (_stack s) d).
Definition set_size (n : Z) : M unit :=
  λ s, (Return tt, Build n (_stack s) (_data s)).

(** [self._stack.append(key)] *)
Definition stack_append (key : K) : M unit :=
  l <- get_stack; set_stack (l ++ [key]).

(** [self._stack.index(key)], raising [ValueError] *)
Definition stack_index (key : K) : M nat :=
  l <- get_stack;
  match PyList.index key l with
  | Some i => ret i
  | None => raise ValueError
  end.

(** [self._stack.pop(i)] *)
Definition stack_pop (i : nat) : M K :=
  l <- get_stack;
  match PyList.pop i l with
  | Some (x, l') => set_stack l' ;; ret x
  | None => raise IndexError
  end.

(** [self._stack[i]] *)
Definition stack_item (i : Z) : M K :=
  l <- get_stack;
  match PyList.item i l with
  | Some x => ret x
  | None => raise IndexError
  end.

(** [self._data[key]] *)
Definition data_item (key : K) : M V :=
  d <- get_data;
  match d !! key with
  | Some v => ret v
  | None => raise KeyError
  end.

(** [self._data[key] = value] *)
Definition data_setitem (key : K) (value : V) : M unit :=
  d <- get_data; set_data (<[key := value]> d).

(** [del self._data[key]] *)
Definition data_delitem (key : K) : M unit :=
  d <- get_data;
  match d !! key with
  | Some _ => set_data (delete key d)
  | None => raise KeyError
  end.

(** The property [size]. *)
Definition size : M Z := λ s, (Return (__size s), s).

(** [__len__] *)
Definition __len__ : M Z := l <- get_stack; ret (Z.of_nat (length l)).

(** The property [filled]. *)
Definition filled : M Z := __len__.

(** The properties [lru] and [mru]. *)
Definition lru : M K := stack_item 0.
Definition mru : M K := stack_item (-1).

(** [__contains__] *)
Definition __contains__ (value : K) : M bool :=
  d <- get_data; ret (bool_decide (is_Some (d !! value))).

(** [peek]: return a value from the cache without affecting access
    order. *)
Definition peek (key : K) : M V := data_item key.

(** [_make_key_newest]: bump an existing key to the most recently accessed
    location.  The [ValueError] of [index] is turned into a [KeyError]. *)
Definition _make_key_newest (key : K) : M unit :=
  λ s, match stack_index key s with
       | (Raise ValueError, s') => (Raise KeyError, s')
       | (Raise e, s') => (Raise e, s')
       | (Return index, s') =>
           (x <- stack_pop index; stack_append x) s'
       end.

(** [__delitem__]: remove an arbitrary item from the cache and stack. *)
Definition __delitem__ (key : K) : M unit :=
  data_delitem key ;;
  i <- stack_index key;
  stack_pop i ;;
  ret tt.

(** [__setitem__]: set the item and make its key the most recently
    accessed one; one item is dropped when the stack outgrows the size. *)
Definition __setitem__ (key : K) (value : V) : M unit :=
  b <- __contains__ key;
  (if b : bool then _make_key_newest key else stack_append key) ;;
  data_setitem key value ;;
  n <- __len__;
  sz <- size;
  if bool_decide (n > sz)
  then (k0 <- stack_item 0; __delitem__ k0)
  else ret tt.

(** [__getitem__]: make the key the most recently accessed one and return
    its value. *)
Definition __getitem__ (key : K) : M V :=
  _make_key_newest key ;; data_item key.

(** [resize]: set the size and, when the cache holds more, partition the
    stack at the new size and remove all the older items. *)
Definition resize (new_size : Z) : M unit :=
  if bool_decide (new_size < 1) then raise ValueError
  else
    set_size new_size ;;
    n <- __len__;
    sz <- size;
    if bool_decide (n > sz)
    then
      l <- get_stack;
      for_ (PyList.slice_to (- sz) l) data_delitem ;;
      sz' <- size;
      l' <- get_stack;
      set_stack (PyList.slice_from (- sz') l')
    else ret tt.

(** [update], inherited from [MutableMapping]: every pair of [existing], in
    its iteration order, goes through [__setitem__]. *)
Definition update (existing : list (K * V)) : M unit :=
  for_ existing (λ kv, __setitem__ kv.1 kv.2).

(** The constructor: the new object, or the exception it raised. *)
Definition __init__ (size : Z) (existing : option (list (K * V)))
  : outcome lru_dict :=
  if bool_decide (size < 1) then Raise ValueError
  else
    let self := Build size [] ∅ in
    match existing with
    | None => Return self
    | Some e =>
        match update e self with
        | (Return _, self') => Return self'
        | (Raise x, _) => Raise x
        end
    end.

(** [__iter__]: the keys of [_stack], oldest first. *)
Definition __iter__ : M (list K) := get_stack.

(** Views over [ProxiedPeek(self)]: iteration goes through [__iter__] and
    every value is fetched with [peek]. *)
Definition keys : M (list K) := __iter__.
Definition values : M (list V) :=
  ks <- __iter__; collect ks peek.
Definition items : M (list (K * V)) :=
  ks <- __iter__; collect ks (λ k, v <- peek k; ret (k, v)).

(** [all(s == o for s, o in zip(self.items(), other.items()))]: both views
    are consumed in lock step, [self]'s first, stopping at the first
    exhausted view or the first unequal pair. *)
Fixpoint all_items_eq (self other : lru_dict) (ks os : list K)
  : outcome bool :=
  match ks with
  | [] => Return true
  | k :: ks' =>
      match peek k self with
      | (Raise e, _) => Raise e
      | (Return v, _) =>
          match os with
          | [] => Return true
          | o :: os' =>
              match peek o other with
              | (Raise e, _) => Raise e
              | (Return w, _) =>
                  if bool_decide ((k, v) = (o, w))
                  then all_items_eq self other ks' os'
                  else Return false
              end
          end
      end
  end.

(** [__eq__] between two [lru_dict]s: [size], then [filled] (the length of
    the stack), then the items, with the short circuit of [and]. *)
Definition __eq__ (self other : lru_dict) : outcome bool :=
  if bool_decide (__size self = __size other) then
    if bool_decide (length (_stack self) = length (_stack other)) then
      all_items_eq self other (_stack self) (_stack other)
    else Return false
  else Return false.

Definition __ne__ (self other : lru_dict) : outcome bool :=
  match __eq__ self other with
  | Return b => Return (negb b)
  | Raise e => Raise e
  end.

(** ** Well-formed stores

    The key sets of [_stack] and [_data] coincide, [_stack] has no
    duplicate, the number of entries is at most the capacity and the
    capacity is at least one. *)
Definition inv (s : lru_dict) : Prop :=
  NoDup (_stack s) ∧
  dom (_data s) = list_to_set (_stack s) ∧
  Z.of_nat (length (_stack s)) ≤ __size s ∧
  1 ≤ __size s.

Global Instance inv_dec (s : lru_dict) : Decision (inv s).
Proof. unfold inv. apply _. Defined.

(** ** Sequences of public operations *)
Inductive op : Type :=
| Write (k : K) (v : V)
| Read (k : K)
| Peek (k : K)
| Delete (k : K)
| Contains (k : K)
| Resize (n : Z)
| Keys
| Values
| Items
| Lru
| Mru
| Filled
| Size.

(** The object after a call, whether the call returned or raised. *)
Definition step (s : lru_dict) (o : op) : lru_dict :=
  match o with
  | Write k v => (__setitem__ k v s).2
  | Read k => (__getitem__ k s).2
  | Peek k => (peek k s).2
  | Delete k => (__delitem__ k s).2
  | Contains k => (__contains__ k s).2
  | Resize n => (resize n s).2
  | Keys => (keys s).2
  | Values => (values s).2
  | Items => (items s).2
  | Lru => (lru s).2
  | Mru => (mru s).2
  | Filled => (filled s).2
  | Size => (size s).2
  end.

Definition run (s : lru_dict) (ops : list op) : lru_dict :=
  foldl step s ops.

End lru_dict.
End LruDict.

(** ** The class [ProxiedPeek]

    The helper mapping handed to the views.  It keeps a reference to the
    [lru_dict] it proxies, so its methods are embedded as methods on the
    state of that store. *)

Module ProxiedPeek.
Section proxied_peek.
Context {K V : Type} `{Countable K} `{EqDecision V}.

Definition __getitem__ (key : K) : LruDict.M (K:=K) (V:=V) V :=
  LruDict.peek key.

Definition __iter__ : LruDict.M (K:=K) (V:=V) (list K) :=
  LruDict.__iter__.

Definition __contains__ (value : K) : LruDict.M (K:=K) (V:=V) bool :=
  LruDict.__contains__ value.

Definition __len__ : LruDict.M (K:=K) (V:=V) Z :=
  LruDict.__len__.
End proxied_peek.
End ProxiedPeek.

(** ** Example stores, with integer keys and values *)

Module Examples.
Import LruDict.

(** Capacity 3, keys 1, 2, 3 written in that order. *)
Definition store_123 : lru_dict (K:=Z) (V:=Z) :=
  Build 3 [1; 2; 3] (<[1 := 10]> (<[2 := 20]> (<[3 := 30]> ∅))).

(** The same table after key 1 was read. *)
Definition store_231 : lru_dict (K:=Z) (V:=Z) :=
  Build 3 [2; 3; 1] (<[1 := 10]> (<[2 := 20]> (<[3 := 30]> ∅))).

(** Capacity 1, one entry. *)
Definition store_7 : lru_dict (K:=Z) (V:=Z) :=
  Build 1 [7] (<[7 := 70]> ∅).
End Examples.

Module MoreExamples.
Import LruDict.

(** Capacity 3 with room left: keys 1 and 2. *)
Definition store_12 : lru_dict (K:=Z) (V:=Z) :=
  Build 3 [1; 2] (<[1 := 10]> (<[2 := 20]> ∅)).

(** An ill-formed store: key 1 twice in the stack. *)
Definition store_dup : lru_dict (K:=Z) (V:=Z) :=
  Build 3 [1; 2; 1] (<[1 := 10]> (<[2 := 20]> ∅)).

(** The pairs of the class docstring: [{i: i for i in range(6)}]. *)
Definition pairs_0_5 : list (Z * Z) :=
  [(0, 0); (1, 1); (2, 2); (3, 3); (4, 4); (5, 5)].
End MoreExamples.

(** * Facts about the list primitives *)

Section list_facts.
Context {A : Type} `{EqDecision A}.
Import PyList.

Lemma index_None (x : A) (l : list A) : index x l = None ↔ x ∉ l.
Proof.
  induction l as [|y l IH]; simpl.
  - split; [intros _; apply not_elem_of_nil | done].
  - destruct (decide (y = x)) as [->|Hne].
    + split; [done | intros []; left].
    + rewrite fmap_None, IH, not_elem_of_cons.
      split; [by intros ?; split | by intros [_ ?]].
Qed.

Lemma index_Some (x : A) (l : list A) (i : nat) :
  index x l = Some i → l !! i = Some x.
Proof.
  revert i. induction l as [|y l IH]; intros i; simpl; [done|].
  destruct (decide (y = x)) as [->|Hne].
  - by intros [= <-].
  - destruct (index x l) as [j|]; simpl; [|done].
    intros [= <-]. by apply IH.
Qed.

Lemma index_elem_of (x : A) (l : list A) :
  x ∈ l → ∃ i, index x l = Some i.
Proof.
  intros Hin. destruct (index x l) as [i|] eqn:E; [by exists i|].
  by apply index_None in E.
Qed.

Lemma filter_ne_id (x : A) (l : list A) :
  x ∉ l → filter (λ y, y ≠ x) l = l.
Proof.
  induction l as [|y l IH]; [done|].
  rewrite not_elem_of_cons. intros [Hne Hnin].
  rewrite filter_cons_True by done. by rewrite IH.
Qed.

(** Without duplicates, popping the first occurrence removes the key. *)
Lemma delete_index_NoDup (x : A) (l : list A) (i : nat) :
  NoDup l → index x l = Some i → delete i l = filter (λ y, y ≠ x) l.
Proof.
  revert i. induction l as [|y l IH]; intros i Hnd; simpl; [done|].
  apply NoDup_cons in Hnd as [Hy Hnd].
  destruct (decide (y = x)) as [->|Hne].
  - intros [= <-]. simpl.
    rewrite filter_cons_False by naive_solver.
    by rewrite filter_ne_id.
  - destruct (index x l) as [j|] eqn:E; simpl; [|done].
    intros [= <-]. simpl.
    rewrite filter_cons_True by done. f_equal. by apply IH.
Qed.

Lemma pop_index (x : A) (l : list A) (i : nat) :
  index x l = Some i → pop i l = Some (x, delete i l).
Proof. intros Hi. unfold pop. by rewrite (index_Some _ _ _ Hi). Qed.

Lemma item_0 (l : list A) : item 0 l = head l.
Proof.
  unfold item. cbv zeta.
  rewrite (bool_decide_eq_false_2 (0 < 0)) by lia.
  destruct l as [|x l]; simpl length; case_bool_decide; simpl; try done; lia.
Qed.

Lemma item_m1 (l : list A) : item (-1) l = last l.
Proof.
  unfold item. cbv zeta.
  rewrite (bool_decide_eq_true_2 (-1 < 0)) by lia.
  destruct (decide (l = [])) as [->|Hne]; [done|].
  assert (0 < length l)%nat by (destruct l; simpl; [done | lia]).
  rewrite bool_decide_eq_true_2 by lia.
  rewrite last_lookup. f_equal. lia.
Qed.

(** [l[:-n]] and [l[-n:]] split [l] before its last [n] elements. *)
Lemma slice_to_neg (n : Z) (l : list A) :
  1 ≤ n ≤ Z.of_nat (length l) →
  slice_to (- n) l = take (length l - Z.to_nat n) l.
Proof.
  intros Hn. unfold slice_to, adjust.
  rewrite bool_decide_eq_true_2 by lia. f_equal. lia.
Qed.

Lemma slice_from_neg (n : Z) (l : list A) :
  1 ≤ n ≤ Z.of_nat (length l) →
  slice_from (- n) l = drop (length l - Z.to_nat n) l.
Proof.
  intros Hn. unfold slice_from, adjust.
  rewrite bool_decide_eq_true_2 by lia. f_equal. lia.
Qed.

(** A list split at position [n]. *)
Lemma elem_of_take_drop (x : A) (n : nat) (l : list A) :
  x ∈ l ↔ x ∈ take n l ∨ x ∈ drop n l.
Proof. by rewrite <- elem_of_app, take_drop. Qed.

Lemma NoDup_take_drop (n : nat) (l : list A) :
  NoDup l →
  NoDup (take n l) ∧ (∀ x, x ∈ take n l → x ∉ drop n l) ∧ NoDup (drop n l).
Proof. intros Hnd. apply NoDup_app. by rewrite take_drop. Qed.
End list_facts.

(** * Facts about the methods *)

Section lru_facts.
Context {K V : Type} `{Countable K} `{EqDecision V}.
Import LruDict.
Implicit Types (s : lru_dict (K:=K) (V:=V)) (k : K) (v : V).

Ltac unfold_m :=
  unfold __setitem__, __getitem__, __delitem__, _make_key_newest, peek,
    __contains__, __len__, filled, size, lru, mru, keys, values, items,
    __iter__, stack_append, stack_index, stack_pop, stack_item, data_item,
    data_setitem, data_delitem, get_stack, set_stack, get_data, set_data,
    set_size, bind, ret, raise; simpl.

Lemma inv_elem_of s k :
  dom (_data s) = list_to_set (_stack s) →
  k ∈ _stack s ↔ is_Some (_data s !! k).
Proof.
  intros Hdom. rewrite <- elem_of_dom, Hdom. by rewrite elem_of_list_to_set.
Qed.

(** [_make_key_newest] *)
Lemma make_key_newest_present s k :
  NoDup (_stack s) → k ∈ _stack s →
  _make_key_newest k s =
    (Return tt,
     Build (__size s) (filter (λ x, x ≠ k) (_stack s) ++ [k]) (_data s)).
Proof.
  intros Hnd Hin. destruct (index_elem_of k _ Hin) as [i Hi].
  unfold_m. rewrite Hi. simpl.
  rewrite (pop_index _ _ _ Hi). simpl.
  by rewrite (delete_index_NoDup _ _ _ Hnd Hi).
Qed.

Lemma make_key_newest_absent s k :
  k ∉ _stack s → _make_key_newest k s = (Raise KeyError, s).
Proof.
  intros Hin. apply index_None in Hin.
  unfold_m. by rewrite Hin.
Qed.

(** [__delitem__] *)
Lemma delitem_present s k :
  NoDup (_stack s) → k ∈ _stack s → is_Some (_data s !! k) →
  __delitem__ k s =
    (Return tt,
     Build (__size s) (filter (λ x, x ≠ k) (_stack s)) (delete k (_data s))).
Proof.
  intros Hnd Hin [v Hv]. destruct (index_elem_of k _ Hin) as [i Hi].
  unfold_m. rewrite Hv. simpl. rewrite Hi. simpl.
  rewrite (pop_index _ _ _ Hi). simpl.
  by rewrite (delete_index_NoDup _ _ _ Hnd Hi).
Qed.

Lemma delitem_absent s k :
  _data s !! k = None → __delitem__ k s = (Raise KeyError, s).
Proof. intros Hk. unfold_m. by rewrite Hk. Qed.

(** [__setitem__]: the outcome on a well-formed store, in closed form. *)
Lemma setitem_run s k v :
  inv s →
  __setitem__ k v s =
    (Return tt,
     let st := filter (λ x, x ≠ k) (_stack s) ++ [k] in
     let d := <[k := v]> (_data s) in
     if bool_decide (Z.of_nat (length st) > __size s)
     then Build (__size s) (drop 1 st) (delete (default k (head st)) d)
     else Build (__size s) st d).
Proof.
  intros (Hnd & Hdom & Hlen & Hsz).
  pose proof (inv_elem_of s k Hdom) as Hk.
  unfold __setitem__ at 1. unfold bind at 1.
  unfold __contains__ at 1, bind at 1, get_data at 1, ret at 1.
  unfold bind at 1.
  assert (∃ s1, (if bool_decide (is_Some (_data s !! k))
                 then _make_key_newest k else stack_append k) s
                = (Return tt, s1) ∧
            s1 = Build (__size s)
                   (filter (λ x, x ≠ k) (_stack s) ++ [k]) (_data s))
    as (s1 & -> & Hs1).
  { eexists; split; [|reflexivity]. case_bool_decide as Hp.
    - apply make_key_newest_present; [done | by apply Hk].
    - unfold_m. rewrite filter_ne_id; [done | by rewrite Hk]. }
  subst s1. unfold_m.
  set (st := filter (λ x, x ≠ k) (_stack s) ++ [k]).
  case_bool_decide as Hgt; [|done].
  destruct st as [|k0 st'] eqn:Hst; [simpl in Hgt; lia|].
  rewrite item_0. simpl.
  assert (is_Some (<[k := v]> (_data s) !! k0)) as [w Hw].
  { destruct (decide (k = k0)) as [->|Hne].
    - rewrite lookup_insert_eq. by eexists.
    - rewrite lookup_insert_ne by done.
      apply (inv_elem_of s k0 Hdom).
      assert (k0 ∈ st) as Hin by (rewrite Hst; left).
      unfold st in Hin. rewrite elem_of_app, list_elem_of_filter in Hin.
      destruct Hin as [[_ ?]|Hin]; [done|].
      apply list_elem_of_singleton in Hin. congruence. }
  rewrite Hw. simpl. rewrite decide_True by done. done.
Qed.

(** Moving a key to the end of a duplicate-free list. *)
Lemma NoDup_newest (l : list K) k :
  NoDup l → NoDup (filter (λ x, x ≠ k) l ++ [k]).
Proof.
  intros Hnd. apply NoDup_app. split_and!.
  - by apply NoDup_filter.
  - intros x [Hx _]%list_elem_of_filter Hk%list_elem_of_singleton. done.
  - apply NoDup_singleton.
Qed.

Lemma list_to_set_newest (l : list K) k :
  list_to_set (filter (λ x, x ≠ k) l ++ [k]) =@{gset K}
  {[k]} ∪ list_to_set l.
Proof.
  apply set_eq. intros x.
  rewrite list_to_set_app_L, !elem_of_union, !elem_of_list_to_set.
  rewrite list_elem_of_filter, list_elem_of_singleton, elem_of_singleton.
  destruct (decide (x = k)); intuition congruence.
Qed.

Lemma length_newest_le (l : list K) k :
  (length (filter (λ x, x ≠ k) l ++ [k]) ≤ length l + 1)%nat.
Proof.
  rewrite length_app. simpl.
  pose proof (length_filter (λ x, x ≠ k) l). lia.
Qed.

Lemma length_newest_present (l : list K) k :
  NoDup l → k ∈ l → length (filter (λ x, x ≠ k) l ++ [k]) = length l.
Proof.
  intros Hnd Hin. destruct (index_elem_of k l Hin) as [i Hi].
  rewrite <- (delete_index_NoDup _ _ _ Hnd Hi).
  rewrite length_app, length_delete by (rewrite (index_Some _ _ _ Hi); eauto).
  apply index_Some, lookup_lt_Some in Hi. simpl. lia.
Qed.

(** [__setitem__] keeps a well-formed store well formed. *)
Lemma setitem_inv s k v : inv s → inv (__setitem__ k v s).2.
Proof.
  intros Hinv. rewrite (setitem_run s k v Hinv). simpl.
  destruct Hinv as (Hnd & Hdom & Hlen & Hsz).
  pose proof (NoDup_newest _ k Hnd) as Hnd'.
  pose proof (list_to_set_newest (_stack s) k) as Hset.
  pose proof (length_newest_le (_stack s) k) as Hle.
  set (st := filter (λ x, x ≠ k) (_stack s) ++ [k]) in *.
  case_bool_decide as Hgt.
  - destruct st as [|k0 st']; [simpl in Hgt; lia|].
    apply NoDup_cons in Hnd' as [Hk0 Hnd'].
    rewrite length_cons in Hle.
    split_and!; cbn [__size _stack _data drop head default];
      rewrite ?drop_0; [done| |lia|done].
    rewrite dom_delete_L, dom_insert_L, Hdom, <- Hset.
    rewrite list_to_set_cons.
    assert (k0 ∉ (list_to_set st' : gset K))
      by by rewrite elem_of_list_to_set.
    set_solver.
  - split_and!; simpl; [done| |lia|done].
    by rewrite dom_insert_L, Hdom, Hset.
Qed.

(** [__getitem__] *)
Lemma getitem_present s k v :
  inv s → _data s !! k = Some v →
  __getitem__ k s =
    (Return v,
     Build (__size s) (filter (λ x, x ≠ k) (_stack s) ++ [k]) (_data s)).
Proof.
  intros (Hnd & Hdom & _) Hv.
  assert (k ∈ _stack s) as Hin by (apply inv_elem_of; eauto).
  unfold __getitem__, bind at 1.
  rewrite make_key_newest_present by done.
  unfold_m. by rewrite Hv.
Qed.

Lemma getitem_absent s k :
  inv s → _data s !! k = None → __getitem__ k s = (Raise KeyError, s).
Proof.
  intros (Hnd & Hdom & _) Hv.
  assert (k ∉ _stack s) as Hin.
  { rewrite inv_elem_of, Hv by done. by intros [? ?]. }
  unfold __getitem__, bind at 1.
  by rewrite make_key_newest_absent.
Qed.

Lemma getitem_inv s k : inv s → inv (__getitem__ k s).2.
Proof.
  intros Hinv. destruct (_data s !! k) as [v|] eqn:Hv.
  - rewrite (getitem_present s k v) by done.
    destruct Hinv as (Hnd & Hdom & Hlen & Hsz).
    assert (k ∈ _stack s) as Hin by (apply inv_elem_of; eauto).
    split_and!; cbn [snd __size _stack _data]; [|..|done].
    + by apply NoDup_newest.
    + rewrite list_to_set_newest, Hdom.
      assert (k ∈ (list_to_set (_stack s) : gset K))
        by by rewrite elem_of_list_to_set.
      set_solver.
    + rewrite length_newest_present by done. lia.
  - by rewrite getitem_absent.
Qed.

Lemma delitem_inv s k : inv s → inv (__delitem__ k s).2.
Proof.
  intros Hinv. destruct (_data s !! k) as [v|] eqn:Hv.
  - destruct Hinv as (Hnd & Hdom & Hlen & Hsz).
    assert (k ∈ _stack s) as Hin by (apply inv_elem_of; eauto).
    rewrite delitem_present by eauto.
    split_and!; cbn [snd __size _stack _data]; [|..|done].
    + by apply NoDup_filter.
    + rewrite dom_delete_L, Hdom. apply set_eq. intros x.
      rewrite elem_of_difference, !elem_of_list_to_set.
      rewrite list_elem_of_filter, elem_of_singleton. tauto.
    + pose proof (length_filter (λ x, x ≠ k) (_stack s)). lia.
  - by rewrite delitem_absent.
Qed.

(** The eviction loop of [resize]. *)
Lemma lookup_foldl_delete (l : list K) (d : gmap K V) k :
  foldl (λ d' x, delete x d') d l !! k =
  if decide (k ∈ l) then None else d !! k.
Proof.
  revert d. induction l as [|x l IH]; intros d; cbn [foldl].
  - case_decide as Hin; [by apply elem_of_nil in Hin | done].
  - rewrite IH.
    destruct (decide (k ∈ x :: l)) as [Hin|Hin];
      rewrite elem_of_cons in Hin;
      destruct (decide (k ∈ l)) as [Hl|Hl]; try done; try tauto.
    + destruct Hin as [->|?]; [apply lookup_delete_eq | done].
    + apply lookup_delete_ne. intros ->. tauto.
Qed.

Lemma for_data_delitem (l : list K) s :
  NoDup l → (∀ k, k ∈ l → is_Some (_data s !! k)) →
  for_ l data_delitem s =
    (Return tt,
     Build (__size s) (_stack s) (foldl (λ d x, delete x d) (_data s) l)).
Proof.
  revert s. induction l as [|x l IH]; intros [sz st d] Hnd Hl; simpl.
  - done.
  - apply NoDup_cons in Hnd as [Hx Hnd].
    destruct (Hl x) as [v Hv]; [left|]. simpl in Hv.
    unfold bind at 1. unfold_m. rewrite Hv. simpl.
    rewrite IH; [done | done |]. simpl.
    intros k Hk. rewrite lookup_delete_ne by (intros ->; done).
    apply (Hl k). by right.
Qed.

(** [resize] *)
Lemma resize_invalid s n :
  n < 1 → resize n s = (Raise ValueError, s).
Proof. intros Hn. unfold resize. by rewrite bool_decide_eq_true_2. Qed.

Lemma resize_fits s n :
  1 ≤ n → Z.of_nat (length (_stack s)) ≤ n →
  resize n s = (Return tt, Build n (_stack s) (_data s)).
Proof.
  intros Hn Hlen. unfold resize. rewrite bool_decide_eq_false_2 by lia.
  unfold_m. by rewrite bool_decide_eq_false_2 by lia.
Qed.

Lemma resize_truncates s n :
  NoDup (_stack s) → dom (_data s) = list_to_set (_stack s) →
  1 ≤ n → n < Z.of_nat (length (_stack s)) →
  resize n s =
    (Return tt,
     let m := (length (_stack s) - Z.to_nat n)%nat in
     Build n (drop m (_stack s))
       (foldl (λ d x, delete x d) (_data s) (take m (_stack s)))).
Proof.
  intros Hnd Hdom Hn Hlen. unfold resize.
  rewrite bool_decide_eq_false_2 by lia.
  unfold bind at 1, set_size at 1.
  unfold bind at 1, __len__ at 1, bind at 1, get_stack at 1, ret at 1.
  cbn [_stack]. unfold bind at 1, size at 1. cbn [__size].
  rewrite bool_decide_eq_true_2 by lia.
  unfold bind at 1, get_stack at 1. cbn [_stack].
  unfold bind at 1.
  rewrite slice_to_neg by lia.
  rewrite for_data_delitem; cbn [_stack _data __size].
  - unfold_m. by rewrite slice_from_neg by lia.
  - by apply NoDup_take_drop.
  - intros k Hk. apply (inv_elem_of s k Hdom).
    apply (elem_of_take_drop k (length (_stack s) - Z.to_nat n)). by left.
Qed.

Lemma resize_inv s n : inv s → inv (resize n s).2.
Proof.
  intros (Hnd & Hdom & Hlen & Hsz).
  destruct (decide (n < 1)) as [Hn|Hn].
  { by rewrite resize_invalid. }
  destruct (decide (Z.of_nat (length (_stack s)) ≤ n)) as [Hfit|Hfit].
  { rewrite resize_fits by lia. split_and!; cbn [snd __size _stack _data];
      [done | done | lia | lia]. }
  rewrite resize_truncates by (done || lia).
  cbn [snd]. cbv zeta.
  set (m := (length (_stack s) - Z.to_nat n)%nat).
  destruct (NoDup_take_drop m _ Hnd) as (_ & Hdisj & Hnd').
  split_and!; cbn [__size _stack _data]; [done| | |lia].
  - apply set_eq. intros x.
    rewrite elem_of_dom, lookup_foldl_delete, elem_of_list_to_set.
    pose proof (inv_elem_of s x Hdom) as Hx.
    pose proof (elem_of_take_drop x m (_stack s)) as Hsplit.
    specialize (Hdisj x).
    case_decide as Hin; [|tauto].
    split; [by intros [? ?] | tauto].
  - rewrite length_drop. lia.
Qed.

(** Traversal through [peek]. *)
Lemma peek_state s k : (peek k s).2 = s.
Proof. unfold_m. by destruct (_data s !! k). Qed.

Lemma collect_peek (l : list K) s :
  (∀ k, k ∈ l → is_Some (_data s !! k)) →
  ∃ vs, collect l peek s = (Return vs, s) ∧
        Forall2 (λ k v, _data s !! k = Some v) l vs.
Proof.
  induction l as [|x l IH]; intros Hl.
  - exists []. split; [done | constructor].
  - destruct (Hl x) as [v Hv]; [left|].
    destruct IH as (vs & Hvs & Hall); [intros k Hk; apply Hl; by right|].
    exists (v :: vs). split; [|by constructor].
    cbn [collect]. unfold bind at 1. unfold_m. rewrite Hv. simpl.
    change (bind (collect l peek) (λ ys, ret (v :: ys)) s
            = (Return (v :: vs), s)).
    unfold bind. by rewrite Hvs.
Qed.

Lemma collect_peek_pair (l : list K) s :
  (∀ k, k ∈ l → is_Some (_data s !! k)) →
  ∃ kvs, collect l (λ k, bind (peek k) (λ v, ret (k, v))) s = (Return kvs, s) ∧
         kvs.*1 = l ∧
         Forall (λ kv, _data s !! kv.1 = Some kv.2) kvs.
Proof.
  induction l as [|x l IH]; intros Hl.
  - exists []. split_and!; [done | done | constructor].
  - destruct (Hl x) as [v Hv]; [left|].
    destruct IH as (kvs & Hkvs & Hfst & Hall);
      [intros k Hk; apply Hl; by right|].
    exists ((x, v) :: kvs). split_and!;
      [| by rewrite fmap_cons, Hfst | by constructor].
    cbn [collect]. unfold bind at 1. unfold_m. rewrite Hv. simpl.
    change (bind (collect l (λ k, bind (peek k) (λ v, ret (k, v))))
              (λ ys, ret ((x, v) :: ys)) s = (Return ((x, v) :: kvs), s)).
    unfold bind at 1. by rewrite Hkvs.
Qed.

Lemma collect_state {A B} (body : A → M B) (l : list A) s :
  (∀ x s', (body x s').2 = s') → (collect l body s).2 = s.
Proof.
  intros Hbody. induction l as [|x l IH]; [done|].
  cbn [collect]. unfold bind, ret.
  specialize (Hbody x s).
  destruct (body x s) as [[y|e] s1]; simpl in Hbody; subst s1; [|done].
  by destruct (collect l body s) as [[ys|e] s2].
Qed.

Lemma values_state s : (values s).2 = s.
Proof.
  unfold values, __iter__, bind at 1, get_stack.
  apply collect_state. intros k s'. apply peek_state.
Qed.

Lemma items_state s : (items s).2 = s.
Proof.
  unfold items, __iter__, bind at 1, get_stack.
  apply collect_state. intros k s'. unfold_m.
  by destruct (_data s' !! k).
Qed.

(** Every public operation keeps a well-formed store well formed,
    whether it returns or raises. *)
Lemma step_inv s (o : op) : inv s → inv (step s o).
Proof.
  intros Hinv. destruct o as [k v|k|k|k|k|n| | | | | | |]; cbn [step].
  - by apply setitem_inv.
  - by apply getitem_inv.
  - by rewrite peek_state.
  - by apply delitem_inv.
  - done.
  - by apply resize_inv.
  - done.
  - by rewrite values_state.
  - by rewrite items_state.
  - unfold_m. by destruct (PyList.item 0 (_stack s)).
  - unfold_m. by destruct (PyList.item (-1) (_stack s)).
  - done.
  - done.
Qed.

Lemma run_inv s (ops : list op) : inv s → inv (run s ops).
Proof.
  revert s. induction ops as [|o ops IH]; intros s Hinv; [done|].
  cbn [run foldl]. apply IH. by apply step_inv.
Qed.

(** The constructor. *)
Lemma update_run (existing : list (K * V)) s :
  inv s → ∃ s', update existing s = (Return tt, s') ∧ inv s'.
Proof.
  revert s. induction existing as [|[k v] l IH]; intros s Hinv.
  - by exists s.
  - unfold update. cbn [for_]. unfold bind. cbn [fst snd].
    pose proof (setitem_inv s k v Hinv) as Hinv'.
    rewrite (setitem_run s k v Hinv) in *. cbn [snd] in Hinv'.
    by apply IH.
Qed.

Lemma init_run (sz : Z) (existing : option (list (K * V))) :
  1 ≤ sz → ∃ s, __init__ sz existing = Return s ∧ inv s.
Proof.
  intros Hsz. unfold __init__. rewrite bool_decide_eq_false_2 by lia.
  assert (inv (Build sz [] (∅ : gmap K V))) as Hempty.
  { split_and!; cbn [__size _stack _data length]; [|done|lia|done].
    apply NoDup_nil_2. }
  destruct existing as [l|]; [|by eexists].
  destruct (update_run l _ Hempty) as (s' & -> & Hinv). by exists s'.
Qed.

Lemma init_invalid (sz : Z) (existing : option (list (K * V))) :
  sz < 1 → __init__ sz existing = Raise ValueError.
Proof. intros Hsz. unfold __init__. by rewrite bool_decide_eq_true_2. Qed.

(** [__eq__]: the lock-step walk over both item views. *)
Lemma all_items_eq_spec (self other : lru_dict (K:=K) (V:=V))
    (xs ys : list (K * V)) :
  Forall (λ kv, _data self !! kv.1 = Some kv.2) xs →
  Forall (λ kv, _data other !! kv.1 = Some kv.2) ys →
  all_items_eq self other xs.*1 ys.*1 =
    Return (bool_decide (Forall (λ p, p.1 = p.2) (zip xs ys))).
Proof.
  intros Hxs. revert ys.
  induction Hxs as [|[k v] xs Hk Hxs IH]; intros ys Hys.
  - cbn [fmap list_fmap all_items_eq zip zip_with].
    by rewrite bool_decide_eq_true_2 by constructor.
  - cbn [fmap list_fmap all_items_eq fst]. unfold_m.
    simpl in Hk. rewrite Hk.
    destruct Hys as [|[o w] ys Ho Hys].
    + cbn [fmap list_fmap zip zip_with].
      by rewrite bool_decide_eq_true_2 by constructor.
    + cbn [fmap list_fmap fst zip zip_with]. simpl in Ho. rewrite Ho.
      case_bool_decide as Heq.
      * rewrite (IH ys Hys).
        apply f_equal, bool_decide_ext.
        rewrite Forall_cons. simpl. tauto.
      * rewrite bool_decide_eq_false_2; [done|].
        rewrite Forall_cons. simpl. tauto.
Qed.

Lemma zip_pairwise_eq {A} (xs ys : list A) :
  length xs = length ys → Forall (λ p, p.1 = p.2) (zip xs ys) → xs = ys.
Proof.
  revert ys. induction xs as [|x xs IH]; intros [|y ys] Hlen Hall;
    simplify_eq/=; [done|].
  apply Forall_cons in Hall as [Hxy Hall]. simpl in Hxy. subst y.
  f_equal. by apply IH.
Qed.

(** Conversely every well-formed store is one the constructor builds, from
    the store's own items: the well-formed stores are exactly the stores a
    program can obtain through the public interface. *)
Lemma lookup_foldl_insert_notin (kvs : list (K * V)) (d : gmap K V) k :
  k ∉ kvs.*1 → foldl (λ d' kv, <[kv.1 := kv.2]> d') d kvs !! k = d !! k.
Proof.
  revert d. induction kvs as [|[k' v'] kvs IH]; intros d Hk; [done|].
  rewrite fmap_cons, not_elem_of_cons in Hk. destruct Hk as [Hne Hk].
  cbn [foldl]. rewrite IH by done. by apply lookup_insert_ne.
Qed.

Lemma lookup_foldl_insert_in (kvs : list (K * V)) (d : gmap K V) k v :
  NoDup kvs.*1 → (k, v) ∈ kvs →
  foldl (λ d' kv, <[kv.1 := kv.2]> d') d kvs !! k = Some v.
Proof.
  revert d. induction kvs as [|[k' v'] kvs IH]; intros d Hnd Hin.
  - by apply elem_of_nil in Hin.
  - rewrite fmap_cons in Hnd. apply NoDup_cons in Hnd as [Hk' Hnd].
    cbn [foldl]. apply elem_of_cons in Hin as [[= <- <-]|Hin].
    + rewrite lookup_foldl_insert_notin by done. apply lookup_insert_eq.
    + by apply IH.
Qed.

Lemma update_fresh (kvs : list (K * V)) s :
  inv s → NoDup kvs.*1 → (∀ k, k ∈ kvs.*1 → k ∉ _stack s) →
  Z.of_nat (length (_stack s) + length kvs) ≤ __size s →
  update kvs s =
    (Return tt,
     Build (__size s) (_stack s ++ kvs.*1)
       (foldl (λ d kv, <[kv.1 := kv.2]> d) (_data s) kvs)).
Proof.
  revert s. induction kvs as [|[k v] kvs IH]; intros s Hinv Hnd Hfresh Hlen.
  - cbn. rewrite app_nil_r. by destruct s.
  - rewrite fmap_cons in Hnd, Hfresh. apply NoDup_cons in Hnd as [Hk Hnd].
    assert (k ∉ _stack s) as Hks by (apply Hfresh; left).
    pose proof (setitem_inv s k v Hinv) as Hinv'.
    unfold update in *. cbn [for_ foldl fst snd]. unfold bind.
    rewrite (setitem_run s k v Hinv) in *. cbv zeta in *.
    rewrite filter_ne_id in * by done.
    rewrite length_app in *. cbn [length] in *.
    rewrite bool_decide_eq_false_2 in * by lia. cbn [snd] in Hinv'.
    rewrite IH; cbn [__size _stack _data]; [|done|done|..].
    + by rewrite fmap_cons, <- app_assoc.
    + intros k' Hk'. rewrite not_elem_of_app, list_elem_of_singleton.
      split; [apply Hfresh; by right | by intros ->].
    + rewrite length_app. cbn [length]. lia.
Qed.

Lemma inv_constructible s :
  inv s →
  ∃ kvs, items s = (Return kvs, s) ∧
         __init__ (__size s) (Some kvs) = Return s.
Proof.
  intros Hinv. pose proof Hinv as (Hnd & Hdom & Hlen & Hsz).
  destruct (collect_peek_pair (_stack s) s) as (kvs & Hkvs & Hfst & HF).
  { intros k. by apply inv_elem_of. }
  exists kvs. split; [done|].
  unfold __init__. rewrite bool_decide_eq_false_2 by lia.
  rewrite update_fresh; cbn [__size _stack _data length].
  - destruct s as [sz st d]. cbn [__size _stack _data] in *.
    rewrite app_nil_l, Hfst. do 2 f_equal. apply map_eq. intros k.
    destruct (d !! k) as [v|] eqn:Hv.
    + assert (k ∈ kvs.*1) as Hin.
      { rewrite Hfst. apply (inv_elem_of (Build sz st d) k Hdom). eauto. }
      apply list_elem_of_fmap in Hin as ([k' v'] & -> & Hin).
      rewrite Forall_forall in HF. pose proof (HF _ Hin) as Hv'.
      cbn [fst snd] in *. rewrite Hv in Hv'. injection Hv' as ->.
      apply lookup_foldl_insert_in; [by rewrite Hfst | done].
    + rewrite lookup_foldl_insert_notin; [apply lookup_empty|].
      rewrite Hfst, (inv_elem_of (Build sz st d) k Hdom).
      cbn [_data]. rewrite Hv. by intros [? ?].
  - split_and!; cbn [__size _stack _data length]; [|done|lia|done].
    apply NoDup_nil_2.
  - by rewrite Hfst.
  - intros k _. apply not_elem_of_nil.
  - rewrite <- Hfst, length_fmap in Hlen. lia.
Qed.

(** * The properties of the specification *)

(** C1. A store is built by the constructor and then used through any
    sequence of public calls (write, read, peek, delete, contains, resize,
    the three traversals and the accessors).  Construction with a capacity
    of at least one succeeds, and after each call of the sequence, that is
    after its first [n] calls for every [n], the store is well formed:
    [_stack] and [_data] hold the same keys, every key once in [_stack],
    the number of entries is at most the capacity, and the capacity is at
    least one. *)
Theorem invariant_after_every_operation
    (sz : Z) (existing : option (list (K * V))) (ops : list op) :
  1 ≤ sz →
  ∃ s0, __init__ sz existing = Return s0 ∧
    ∀ n : nat,
      let s := run s0 (take n ops) in
      NoDup (_stack s) ∧
      dom (_data s) = list_to_set (_stack s) ∧
      Z.of_nat (length (_stack s)) ≤ __size s ∧
      1 ≤ __size s.
Proof.
  intros Hsz. destruct (init_run sz existing Hsz) as (s0 & Hs0 & Hinv).
  exists s0. split; [done|]. intros n. by apply run_inv.
Qed.

(** C2. On a well-formed store, [write(k, v)] always returns.  A key
    already present keeps its place in the table with the new value and
    moves to the end of the recency order; an absent key is appended.  If
    the number of entries then exceeds the capacity, the key at index 0 is
    evicted from both structures, once, which brings the count back to the
    capacity.  In both cases [k] is then the most recently used key and
    holds [v]. *)
Theorem write_correct s k v :
  inv s →
  ∃ s', __setitem__ k v s = (Return tt, s') ∧
    __size s' = __size s ∧
    mru s' = (Return k, s') ∧
    peek k s' = (Return v, s') ∧
    let st := (if decide (is_Some (_data s !! k))
               then filter (λ x, x ≠ k) (_stack s)
               else _stack s) ++ [k] in
    let d := <[k := v]> (_data s) in
    if decide (Z.of_nat (length st) > __size s)
    then ∃ k0, st !! 0%nat = Some k0 ∧
           _stack s' = drop 1 st ∧
           _data s' = delete k0 d ∧
           Z.of_nat (length (_stack s')) = __size s
    else _stack s' = st ∧ _data s' = d.
Proof.
  intros Hinv. eexists. split; [by apply setitem_run|].
  destruct Hinv as (Hnd & Hdom & Hlen & Hsz).
  pose proof (inv_elem_of s k Hdom) as Hk.
  pose proof (length_newest_le (_stack s) k) as Hle.
  assert ((if decide (is_Some (_data s !! k))
           then filter (λ x, x ≠ k) (_stack s) else _stack s)
          = filter (λ x, x ≠ k) (_stack s)) as ->.
  { case_decide; [done|]. rewrite filter_ne_id; [done | tauto]. }
  cbv zeta. unfold mru, peek, stack_item, data_item, bind, get_stack,
    get_data, ret, raise. rewrite item_m1.
  destruct (filter (λ x, x ≠ k) (_stack s)) as [|k0 l] eqn:Hf.
  - rewrite bool_decide_eq_false_2, decide_False by (simpl; lia).
    cbn. by rewrite lookup_insert_eq.
  - assert (k0 ≠ k) as Hne.
    { assert (k0 ∈ filter (λ x, x ≠ k) (_stack s)) as Hin
        by (rewrite Hf; left).
      by apply list_elem_of_filter in Hin as [? _]. }
    cbn [app length] in *. rewrite length_app in *. cbn [length] in *.
    case_bool_decide as Hgt.
    + rewrite decide_True by done.
      cbn [__size _stack _data drop head default].
      rewrite drop_0, last_snoc, lookup_delete_ne, lookup_insert_eq by done.
      split_and!; try done. exists k0.
      rewrite length_app. cbn [length]. split_and!; try done. lia.
    + rewrite decide_False by done.
      cbn [__size _stack _data].
      change (k0 :: l ++ [k]) with ((k0 :: l) ++ [k]).
      rewrite last_snoc, lookup_insert_eq. done.
Qed.

(** C3. On a well-formed store, reading a present key returns the value
    the table holds for it and moves the key to the end of the recency
    order: the other keys keep their relative order, and the table and the
    capacity are unchanged.  The key is then the most recently used. *)
Theorem read_correct s k v :
  inv s → _data s !! k = Some v →
  ∃ s', __getitem__ k s = (Return v, s') ∧
    _stack s' = filter (λ x, x ≠ k) (_stack s) ++ [k] ∧
    _data s' = _data s ∧
    __size s' = __size s ∧
    mru s' = (Return k, s').
Proof.
  intros Hinv Hv. eexists. split; [by apply getitem_present|].
  split_and!; try done.
  unfold mru, stack_item, bind, get_stack, ret. cbn [_stack].
  by rewrite item_m1, last_snoc.
Qed.

(** C4. Peeking a present key returns its value and leaves the whole
    store as it was: same recency order (so the same least and most
    recently used keys), same table, same capacity. *)
Theorem peek_correct s k v :
  _data s !! k = Some v →
  ∃ s', peek k s = (Return v, s') ∧
    _stack s' = _stack s ∧ _data s' = _data s ∧ __size s' = __size s ∧
    lru s' = lru s ∧ mru s' = mru s.
Proof.
  intros Hv. exists s. split; [|done].
  unfold peek, data_item, bind, get_data, ret. by rewrite Hv.
Qed.

(** C5. A capacity below one is refused with [ValueError], by [resize]
    (which then changes nothing) and by the constructor.  Otherwise
    [resize] returns and sets the capacity; if the new capacity [n] is
    below the number [c] of entries, the [c - n] oldest keys leave the
    table and the recency order keeps its last [n] keys, in order, every
    surviving key keeping its value. *)
Theorem resize_correct s n :
  inv s →
  (n < 1 →
     resize n s = (Raise ValueError, s) ∧
     ∀ existing, __init__ (K:=K) (V:=V) n existing = Raise ValueError) ∧
  (1 ≤ n →
     ∃ s', resize n s = (Return tt, s') ∧
       __size s' = n ∧
       (n < Z.of_nat (length (_stack s)) →
          let m := (length (_stack s) - Z.to_nat n)%nat in
          _stack s = take m (_stack s) ++ _stack s' ∧
          length (take m (_stack s)) = m ∧
          ∀ k, _data s' !! k =
               if decide (k ∈ take m (_stack s)) then None
               else _data s !! k)).
Proof.
  intros (Hnd & Hdom & Hlen & Hsz). split.
  - intros Hn. split; [by apply resize_invalid|].
    intros existing. by apply init_invalid.
  - intros Hn.
    destruct (decide (n < Z.of_nat (length (_stack s)))) as [Hlt|Hge].
    + eexists. split; [by apply resize_truncates|].
      cbv zeta. cbn [__size _stack _data]. split; [done|]. intros _.
      split_and!.
      * by rewrite take_drop.
      * rewrite length_take. lia.
      * intros k. apply lookup_foldl_delete.
    + eexists. split; [apply resize_fits; lia|].
      split; [done | intros ?; lia].
Qed.

(** C6. On a well-formed store the three traversals return, in recency
    order from oldest to newest: [keys] is [_stack] itself, [values] the
    value of each of its keys in turn, [items] each key with its value.
    The store is the same after each traversal, so the most recently used
    key is too. *)
Theorem traversal_correct s :
  inv s →
  keys s = (Return (_stack s), s) ∧
  (∃ vs, values s = (Return vs, s) ∧
         Forall2 (λ k v, _data s !! k = Some v) (_stack s) vs) ∧
  (∃ kvs, items s = (Return kvs, s) ∧
          kvs.*1 = _stack s ∧
          Forall (λ kv, _data s !! kv.1 = Some kv.2) kvs) ∧
  mru (keys s).2 = mru s ∧
  mru (values s).2 = mru s ∧
  mru (items s).2 = mru s.
Proof.
  intros (Hnd & Hdom & _).
  assert (∀ k, k ∈ _stack s → is_Some (_data s !! k)) as Hall
    by (intros k; by apply inv_elem_of).
  split_and!.
  - done.
  - destruct (collect_peek _ s Hall) as (vs & Hvs & HF).
    exists vs. split; [|done].
    unfold values, __iter__, bind at 1, get_stack. done.
  - destruct (collect_peek_pair _ s Hall) as (kvs & Hkvs & Hfst & HF).
    exists kvs. split; [|done].
    unfold items, __iter__, bind at 1, get_stack. done.
  - done.
  - by rewrite values_state.
  - by rewrite items_state.
Qed.

(** C7. On a well-formed store, each of read, peek and delete raises
    exactly when the key is absent from the table; the exception is then
    [KeyError] and the store is left as it was. *)
Theorem missing_key_errors s k :
  inv s →
  ((∃ e, (__getitem__ k s).1 = Raise e) ↔ _data s !! k = None) ∧
  ((∃ e, (peek k s).1 = Raise e) ↔ _data s !! k = None) ∧
  ((∃ e, (__delitem__ k s).1 = Raise e) ↔ _data s !! k = None) ∧
  (_data s !! k = None →
     __getitem__ k s = (Raise KeyError, s) ∧
     peek k s = (Raise KeyError, s) ∧
     __delitem__ k s = (Raise KeyError, s)).
Proof.
  intros Hinv.
  assert (_data s !! k = None →
          __getitem__ k s = (Raise KeyError, s) ∧
          peek k s = (Raise KeyError, s) ∧
          __delitem__ k s = (Raise KeyError, s)) as Habs.
  { intros Hk. split_and!.
    - by apply getitem_absent.
    - unfold peek, data_item, bind, get_data, raise. by rewrite Hk.
    - by apply delitem_absent. }
  split_and!; [..|done].
  - split.
    + intros [e He]. destruct (_data s !! k) as [v|] eqn:Hv; [|done].
      by rewrite (getitem_present s k v) in He.
    + intros Hk. destruct (Habs Hk) as (-> & _). by eexists.
  - split.
    + intros [e He]. destruct (_data s !! k) as [v|] eqn:Hv; [|done].
      unfold peek, data_item, bind, get_data, ret in He.
      by rewrite Hv in He.
    + intros Hk. destruct (Habs Hk) as (_ & -> & _). by eexists.
  - split.
    + intros [e He]. destruct (_data s !! k) as [v|] eqn:Hv; [|done].
      destruct Hinv as (Hnd & Hdom & _).
      rewrite delitem_present in He; [done | done | | eauto].
      apply inv_elem_of; eauto.
    + intros Hk. destruct (Habs Hk) as (_ & _ & ->). by eexists.
Qed.

(** C8. For two well-formed stores, [==] returns a boolean, true exactly
    when the capacities are equal, the entry counts are equal and the
    items of both stores, walked together in recency order, are equal
    pair by pair; [!=] is its negation.  In particular two stores with the
    same table but different recency orders are not equal. *)
Theorem equality_correct (s o : lru_dict (K:=K) (V:=V)) :
  inv s → inv o →
  ∃ xs ys b,
    items s = (Return xs, s) ∧ items o = (Return ys, o) ∧
    __eq__ s o = Return b ∧ __ne__ s o = Return (negb b) ∧
    (b = true ↔
       __size s = __size o ∧
       (filled s).1 = (filled o).1 ∧
       Forall (λ p, p.1 = p.2) (zip xs ys)) ∧
    (_data s = _data o → _stack s ≠ _stack o → b = false).
Proof.
  intros (Hnds & Hdoms & _) (Hndo & Hdomo & _).
  destruct (collect_peek_pair (_stack s) s) as (xs & Hxs & Hfs & HFs).
  { intros k. by apply inv_elem_of. }
  destruct (collect_peek_pair (_stack o) o) as (ys & Hys & Hfo & HFo).
  { intros k. by apply inv_elem_of. }
  assert ((filled s).1 = (filled o).1 ↔
          length (_stack s) = length (_stack o)) as Hfilled.
  { unfold filled, __len__, bind, get_stack, ret. cbn [fst].
    split; [intros [= ?]; lia | by intros ->]. }
  assert (length xs = length (_stack s)) as Hlxs
    by (by rewrite <- Hfs, length_fmap).
  assert (length ys = length (_stack o)) as Hlys
    by (by rewrite <- Hfo, length_fmap).
  set (b := bool_decide (__size s = __size o) &&
            bool_decide (length (_stack s) = length (_stack o)) &&
            bool_decide (Forall (λ p, p.1 = p.2) (zip xs ys))).
  assert (__eq__ s o = Return b) as Heq.
  { unfold __eq__, b. do 2 (case_bool_decide; [|done]).
    rewrite <- Hfs, <- Hfo. apply all_items_eq_spec; done. }
  assert (b = true ↔
          __size s = __size o ∧ (filled s).1 = (filled o).1 ∧
          Forall (λ p, p.1 = p.2) (zip xs ys)) as Hb.
  { unfold b. rewrite !andb_true_iff, !bool_decide_eq_true, Hfilled. tauto. }
  exists xs, ys, b. split_and!; try done.
  - unfold __ne__. by rewrite Heq.
  - intros _ Hne. destruct b eqn:Eb; [|done]. exfalso. apply Hne.
    destruct Hb as [Hb _]. destruct Hb as (_ & Hcnt & Hall); [done|].
    apply Hfilled in Hcnt.
    rewrite <- Hfs, <- Hfo. f_equal. apply zip_pairwise_eq; [lia | done].
Qed.

(** C9. On a store without entries both accessors raise [IndexError], the
    out-of-bounds error of the list, and change nothing.  Deleting the
    only entry of a well-formed one-entry store returns, leaves both
    structures empty, and both accessors then raise. *)
Theorem empty_store_accessors s :
  inv s →
  ((filled s).1 = Return 0 →
     lru s = (Raise IndexError, s) ∧ mru s = (Raise IndexError, s)) ∧
  (∀ k, (filled s).1 = Return 1 → is_Some (_data s !! k) →
     ∃ s', __delitem__ k s = (Return tt, s') ∧
       (filled s').1 = Return 0 ∧
       _stack s' = [] ∧ _data s' = ∅ ∧
       lru s' = (Raise IndexError, s') ∧
       mru s' = (Raise IndexError, s')).
Proof.
  intros (Hnd & Hdom & _).
  assert (∀ s', _stack s' = [] →
            lru s' = (Raise IndexError, s') ∧
            mru s' = (Raise IndexError, s')) as Hempty.
  { intros s' Hs'. unfold lru, mru, stack_item, bind, get_stack, raise.
    by rewrite Hs'. }
  split.
  - intros Hf. apply Hempty.
    unfold filled, __len__, bind, get_stack, ret in Hf. cbn [fst] in Hf.
    destruct (_stack s); [done | simplify_eq/=; lia].
  - intros k Hf Hk.
    unfold filled, __len__, bind, get_stack, ret in Hf. cbn [fst] in Hf.
    assert (k ∈ _stack s) as Hin by by apply inv_elem_of.
    destruct (_stack s) as [|k' [|k'' l]] eqn:Hst;
      [by apply elem_of_nil in Hin | | simplify_eq/=; lia].
    apply list_elem_of_singleton in Hin as <-.
    eexists. split.
    { apply delitem_present; rewrite ?Hst; [done | left | done]. }
    cbn [_stack _data]. rewrite Hst.
    assert (filter (λ x, x ≠ k) [k] = []) as Hnil.
    { rewrite filter_cons_False by (intros Hne; by apply Hne). done. }
    rewrite Hnil. split_and!; try done; [| by apply Hempty..].
    apply dom_empty_inv_L. rewrite dom_delete_L, Hdom. set_solver.
Qed.

(** C10. A [resize] to a capacity of at least one that is not below the
    number of entries only sets the capacity: the recency order and the
    table, hence every stored value, are unchanged and nothing is
    evicted. *)
Theorem resize_frame s n :
  1 ≤ n → Z.of_nat (length (_stack s)) ≤ n →
  ∃ s', resize n s = (Return tt, s') ∧
    __size s' = n ∧ _stack s' = _stack s ∧ _data s' = _data s.
Proof.
  intros Hn Hfit. eexists. split; [by apply resize_fits|]. done.
Qed.
End lru_facts.

(** * The properties on the example stores *)

Section examples.
Import LruDict Examples.

Ltac by_evaluation := apply (bool_decide_unpack _); vm_compute; exact I.

Lemma invariant_after_every_operation_witness :
  1 ≤ 2 ∧
  ∃ s0, __init__ 2 (Some [(1, 10); (2, 20); (3, 30); (2, 21)]) = Return s0 ∧
    ∀ n : nat,
      inv (run s0 (take n [Read 2; Write 4 40; Delete 3; Read 3; Resize 1;
                           Items; Resize 0; Write 5 50; Mru])).
Proof.
  split; [lia|].
  apply (invariant_after_every_operation (K:=Z) (V:=Z)). lia.
Defined.

Lemma write_correct_witness :
  inv store_123 ∧
  ∃ s', __setitem__ 4 40 store_123 = (Return tt, s') ∧
    mru s' = (Return 4, s') ∧ peek 4 s' = (Return 40, s').
Proof.
  assert (inv store_123) as Hinv by by_evaluation.
  split; [exact Hinv|].
  destruct (write_correct store_123 4 40 Hinv)
    as (s' & Hrun & _ & Hmru & Hpeek & _).
  exists s'. auto.
Defined.

Lemma read_correct_witness :
  inv store_123 ∧ _data store_123 !! 1 = Some 10 ∧
  ∃ s', __getitem__ 1 store_123 = (Return 10, s') ∧
    _stack s' = [2; 3; 1] ∧ _data s' = _data store_123.
Proof.
  assert (inv store_123) as Hinv by by_evaluation.
  assert (_data store_123 !! 1 = Some 10) as Hv by reflexivity.
  split_and!; [exact Hinv | exact Hv |].
  destruct (read_correct store_123 1 10 Hinv Hv)
    as (s' & Hrun & Hst & Hd & _).
  exists s'. split_and!; [exact Hrun | | exact Hd].
  rewrite Hst. reflexivity.
Defined.

Lemma peek_correct_witness :
  _data store_123 !! 1 = Some 10 ∧
  ∃ s', peek 1 store_123 = (Return 10, s') ∧
    lru s' = lru store_123 ∧ mru s' = mru store_123.
Proof.
  assert (_data store_123 !! 1 = Some 10) as Hv by reflexivity.
  split; [exact Hv|].
  destruct (peek_correct store_123 1 10 Hv)
    as (s' & Hrun & _ & _ & _ & Hlru & Hmru).
  exists s'. auto.
Defined.

Lemma resize_correct_witness :
  inv store_123 ∧
  resize 0 store_123 = (Raise ValueError, store_123) ∧
  ∃ s', resize 1 store_123 = (Return tt, s') ∧
    __size s' = 1 ∧ [1; 2; 3] = [1; 2] ++ _stack s'.
Proof.
  assert (inv store_123) as Hinv by by_evaluation.
  split_and!; [exact Hinv | |].
  - destruct (resize_correct store_123 0 Hinv) as [Hbad _].
    apply Hbad. lia.
  - destruct (resize_correct store_123 1 Hinv) as [_ Hok].
    destruct Hok as (s' & Hrun & Hsz & Hcut); [lia|].
    exists s'. split_and!; [exact Hrun | exact Hsz |].
    destruct Hcut as (Hst & _); [simpl; lia|]. exact Hst.
Defined.

Lemma traversal_correct_witness :
  inv store_123 ∧
  keys store_123 = (Return [1; 2; 3], store_123) ∧
  mru (values store_123).2 = mru store_123 ∧
  mru (items store_123).2 = mru store_123.
Proof.
  assert (inv store_123) as Hinv by by_evaluation.
  split; [exact Hinv|].
  destruct (traversal_correct store_123 Hinv)
    as (Hkeys & _ & _ & _ & Hvalues & Hitems).
  auto.
Defined.

Lemma missing_key_errors_witness :
  inv store_123 ∧
  __getitem__ 9 store_123 = (Raise KeyError, store_123) ∧
  peek 9 store_123 = (Raise KeyError, store_123) ∧
  __delitem__ 9 store_123 = (Raise KeyError, store_123).
Proof.
  assert (inv store_123) as Hinv by by_evaluation.
  split; [exact Hinv|].
  destruct (missing_key_errors store_123 9 Hinv) as (_ & _ & _ & Habs).
  apply Habs. reflexivity.
Defined.

Lemma equality_correct_witness :
  inv store_123 ∧ inv store_231 ∧
  __eq__ store_123 store_231 = Return false ∧
  __ne__ store_123 store_231 = Return true.
Proof.
  assert (inv store_123) as Hinv by by_evaluation.
  assert (inv store_231) as Hinv' by by_evaluation.
  split_and!; [exact Hinv | exact Hinv' | |];
    destruct (equality_correct store_123 store_231 Hinv Hinv')
      as (xs & ys & b & _ & _ & Heq & Hne & _ & Horder);
    rewrite Horder in * by (reflexivity || discriminate); done.
Defined.

Lemma empty_store_accessors_witness :
  inv store_7 ∧
  ∃ s', __delitem__ 7 store_7 = (Return tt, s') ∧
    _stack s' = [] ∧
    lru s' = (Raise IndexError, s') ∧ mru s' = (Raise IndexError, s').
Proof.
  assert (inv store_7) as Hinv by by_evaluation.
  split; [exact Hinv|].
  destruct (empty_store_accessors store_7 Hinv) as [_ Hsole].
  destruct (Hsole 7) as (s' & Hrun & _ & Hst & _ & Hlru & Hmru);
    [reflexivity | by exists 70 |].
  exists s'. auto.
Defined.

Lemma resize_frame_witness :
  1 ≤ 5 ∧ Z.of_nat (length (_stack store_123)) ≤ 5 ∧
  ∃ s', resize 5 store_123 = (Return tt, s') ∧
    __size s' = 5 ∧ _stack s' = _stack store_123 ∧
    _data s' = _data store_123.
Proof.
  split_and!; [lia | simpl; lia |].
  apply (resize_frame store_123 5); [lia | simpl; lia].
Defined.
End examples.

(** * Further properties of the methods *)

Section more_facts.
Context {K V : Type} `{Countable K} `{EqDecision V}.
Import LruDict.
Implicit Types (s : lru_dict (K:=K) (V:=V)) (k : K) (v : V).

Lemma filter_newest_idem (l : list K) k :
  filter (λ x, x ≠ k) (filter (λ x, x ≠ k) l ++ [k]) =
  filter (λ x, x ≠ k) l.
Proof.
  rewrite filter_app, filter_cons_False, filter_nil, app_nil_r
    by (intros Hne; by apply Hne).
  apply filter_ne_id. by intros [Hne _]%list_elem_of_filter.
Qed.

Lemma store_eta s : Build (__size s) (_stack s) (_data s) = s.
Proof. by destruct s. Qed.

(** X1. Deleting a present key from a well-formed store returns; the key
    leaves the recency order and the table, the other keys keep their
    relative order and their values, and the capacity is unchanged. *)
Theorem delete_correct s k v :
  inv s → _data s !! k = Some v →
  ∃ s', __delitem__ k s = (Return tt, s') ∧
    _stack s' = filter (λ x, x ≠ k) (_stack s) ∧
    _data s' = delete k (_data s) ∧
    __size s' = __size s ∧
    Z.of_nat (length (_stack s')) = Z.of_nat (length (_stack s)) - 1 ∧
    __contains__ k s' = (Return false, s') ∧
    (∀ k', k' ≠ k → (peek k' s').1 = (peek k' s).1).
Proof.
  intros (Hnd & Hdom & _) Hv.
  assert (k ∈ _stack s) as Hin by (apply inv_elem_of; eauto).
  eexists. split; [apply delitem_present; eauto|].
  cbn [__size _stack _data]. split_and!; [done | done | done | | |].
  - pose proof (length_newest_present _ k Hnd Hin) as Hl.
    rewrite length_app in Hl. cbn [length] in Hl. lia.
  - unfold __contains__, bind, get_data, ret. cbn [_data].
    by rewrite lookup_delete_eq.
  - intros k' Hne. unfold peek, data_item, bind, get_data, ret, raise.
    cbn [_data]. rewrite lookup_delete_ne by done.
    by destruct (_data s !! k').
Qed.

(** X3. On a well-formed store [filled], which is the length of the recency
    order, is the number of entries of the table, and it is at most the
    capacity that [size] returns. *)
Theorem filled_counts_table s :
  inv s →
  filled s = (Return (Z.of_nat (base.size (_data s))), s) ∧
  ∃ c, size s = (Return c, s) ∧ Z.of_nat (base.size (_data s)) ≤ c.
Proof.
  intros (Hnd & Hdom & Hlen & _).
  assert (base.size (_data s) = length (_stack s)) as ->.
  { by rewrite <- size_dom, Hdom, size_list_to_set. }
  split; [done|]. by exists (__size s).
Qed.

(** X4. [_make_key_newest] on any store, also an ill-formed one: for a key that
    occurs in [_stack] it returns, the key is then last, the stack is a
    permutation of the old one (only the first occurrence of the key
    moves), and the table and the capacity are untouched. *)
Theorem make_key_newest_permutes s k :
  k ∈ _stack s →
  ∃ s' i, _make_key_newest k s = (Return tt, s') ∧
    PyList.index k (_stack s) = Some i ∧
    _stack s' = delete i (_stack s) ++ [k] ∧
    _stack s' ≡ₚ _stack s ∧
    last (_stack s') = Some k ∧
    _data s' = _data s ∧ __size s' = __size s.
Proof.
  intros Hin. destruct (index_elem_of k _ Hin) as [i Hi].
  exists (Build (__size s) (delete i (_stack s) ++ [k]) (_data s)), i.
  split_and!; try done.
  - unfold _make_key_newest, stack_index, stack_pop, stack_append, bind,
      get_stack, set_stack, ret. rewrite Hi. cbn [_stack].
    by rewrite (pop_index _ _ _ Hi).
  - cbn [_stack]. rewrite <- Permutation_cons_append.
    symmetry. apply delete_Permutation. by apply index_Some.
  - cbn [_stack]. apply last_snoc.
Qed.
(** X5. Reading the key that is already the most recently used one leaves a
    well-formed store exactly as it was. *)
Theorem read_newest_is_noop s k :
  inv s → (mru s).1 = Return k →
  ∃ v, __getitem__ k s = (Return v, s) ∧ peek k s = (Return v, s).
Proof.
  intros Hinv Hmru. pose proof Hinv as (Hnd & Hdom & _).
  unfold mru, stack_item, bind, get_stack, ret, raise in Hmru.
  rewrite item_m1 in Hmru.
  destruct (last (_stack s)) as [k'|] eqn:Hlast; [|done].
  cbn [fst] in Hmru. injection Hmru as ->.
  apply last_Some in Hlast as [l Hl].
  assert (k ∈ _stack s) as Hin.
  { rewrite Hl, elem_of_app, list_elem_of_singleton. by right. }
  destruct (proj1 (inv_elem_of s k Hdom) Hin) as [v Hv].
  exists v. split.
  - rewrite (getitem_present s k v Hinv Hv).
    rewrite Hl in Hnd |- *. apply NoDup_app in Hnd as (_ & Hdisj & _).
    rewrite filter_app, filter_cons_False, filter_nil, app_nil_r
      by (intros Hne; by apply Hne).
    rewrite filter_ne_id.
    + rewrite <- Hl. by rewrite store_eta.
    + intros Hk. apply (Hdisj k Hk). by apply list_elem_of_singleton.
  - unfold peek, data_item, bind, get_data, ret. by rewrite Hv.
Qed.

(** X6. Writing to a present key the value it already has is a read: both
    calls leave a well-formed store in the same state. *)
Theorem rewrite_is_read s k v :
  inv s → _data s !! k = Some v →
  (__setitem__ k v s).2 = (__getitem__ k s).2.
Proof.
  intros Hinv Hv. pose proof Hinv as (Hnd & Hdom & Hlen & _).
  assert (k ∈ _stack s) as Hin by (apply inv_elem_of; eauto).
  rewrite (setitem_run s k v Hinv), (getitem_present s k v Hinv Hv).
  cbv zeta. cbn [snd].
  rewrite bool_decide_eq_false_2
    by (rewrite length_newest_present by done; lia).
  by rewrite insert_id.
Qed.

(** X7. Writing a new key into a well-formed store that has room and deleting
    it again gives the store back. *)
Theorem write_delete_roundtrip s k v :
  inv s → _data s !! k = None →
  Z.of_nat (length (_stack s)) < __size s →
  __delitem__ k (__setitem__ k v s).2 = (Return tt, s).
Proof.
  intros Hinv Hk Hroom. pose proof Hinv as (Hnd & Hdom & _).
  assert (k ∉ _stack s) as Hnin.
  { rewrite (inv_elem_of s k Hdom), Hk. by intros [? ?]. }
  pose proof (setitem_inv s k v Hinv) as (Hnd' & Hdom' & _).
  rewrite (setitem_run s k v Hinv) in *. cbv zeta in *.
  rewrite (filter_ne_id k (_stack s) Hnin) in *.
  rewrite length_app in *. cbn [length] in *.
  rewrite bool_decide_eq_false_2 in * by lia. cbn [snd] in *.
  rewrite delitem_present; cbn [__size _stack _data] in *; [|done|..].
  - rewrite filter_app, filter_cons_False, filter_nil, app_nil_r
      by (intros Hne; by apply Hne).
    rewrite filter_ne_id, delete_insert_id by done.
    by rewrite store_eta.
  - rewrite elem_of_app, list_elem_of_singleton. by right.
  - rewrite lookup_insert_eq. by eexists.
Qed.

(** X8. The last write wins: on a well-formed store, writing a key twice in a
    row ends in the state the second write alone would give. *)
Theorem last_write_wins s k v1 v2 :
  inv s →
  __setitem__ k v2 (__setitem__ k v1 s).2 = __setitem__ k v2 s.
Proof.
  intros Hinv. pose proof Hinv as (Hnd & Hdom & Hlen & Hsz).
  pose proof (setitem_inv s k v1 Hinv) as Hinv1.
  rewrite (setitem_run _ k v2 Hinv1), (setitem_run s k v2 Hinv).
  rewrite (setitem_run s k v1 Hinv). cbv zeta. cbn [snd]. f_equal.
  pose proof (length_newest_le (_stack s) k) as Hle.
  destruct (filter (λ x, x ≠ k) (_stack s)) as [|k0 l] eqn:Hf.
  - rewrite !app_nil_l in *. cbn [length] in *.
    rewrite (bool_decide_eq_false_2 (Z.of_nat 1 > __size s)) by lia.
    cbn [__size _stack _data]. rewrite filter_cons_False, filter_nil
      by (intros Hne; by apply Hne).
    rewrite app_nil_l. cbn [length].
    rewrite (bool_decide_eq_false_2 (Z.of_nat 1 > __size s)) by lia.
    by rewrite insert_insert_eq.
  - assert (k0 ≠ k ∧ k ∉ l) as [Hk0 Hkl].
    { assert (∀ x, x ∈ k0 :: l → x ≠ k) as Hall.
      { intros x Hx. rewrite <- Hf in Hx.
        by apply list_elem_of_filter in Hx as [? _]. }
      split; [apply Hall; left | intros Hk; apply (Hall k); [by right|done]]. }
    assert (filter (λ x, x ≠ k) (l ++ [k]) ++ [k] = l ++ [k]) as Hl.
    { rewrite filter_app, filter_cons_False, filter_nil, app_nil_r
        by (intros Hne; by apply Hne).
      by rewrite filter_ne_id. }
    assert (filter (λ x, x ≠ k) ((k0 :: l) ++ [k]) ++ [k]
            = (k0 :: l) ++ [k]) as Hl'.
    { rewrite <- app_comm_cons, filter_cons_True by done.
      rewrite <- !app_comm_cons. f_equal. apply Hl. }
    change (drop 1 ((k0 :: l) ++ [k])) with (l ++ [k]).
    change (default k (head ((k0 :: l) ++ [k]))) with k0.
    assert (length ((k0 :: l) ++ [k]) = S (length (l ++ [k]))) as Hlen'
      by done.
    destruct (bool_decide_reflect
                (Z.of_nat (length ((k0 :: l) ++ [k])) > __size s))
      as [Hgt|Hgt]; cbn [__size _stack _data].
    + rewrite Hl, bool_decide_eq_false_2 by lia.
      f_equal.
      rewrite (delete_insert_ne _ k0 k) by done.
      rewrite insert_insert_eq. by rewrite delete_insert_ne.
    + rewrite Hl', bool_decide_eq_false_2 by done.
      by rewrite insert_insert_eq.
Qed.
(** The table of a well-formed store is determined by its items. *)
Lemma data_of_items s (xs : list (K * V)) :
  NoDup (_stack s) → dom (_data s) = list_to_set (_stack s) →
  xs.*1 = _stack s → Forall (λ kv, _data s !! kv.1 = Some kv.2) xs →
  _data s = list_to_map xs.
Proof.
  intros Hnd Hdom Hfst HF. rewrite <- Hfst in Hnd.
  rewrite Forall_forall in HF.
  apply map_eq. intros k. destruct (_data s !! k) as [v|] eqn:Hv.
  - symmetry. apply elem_of_list_to_map; [done|].
    assert (k ∈ xs.*1) as Hin.
    { rewrite Hfst. apply (inv_elem_of s k Hdom). eauto. }
    apply list_elem_of_fmap in Hin as ([k' v'] & -> & Hin).
    pose proof (HF _ Hin) as Hv'. cbn [fst snd] in *.
    rewrite Hv in Hv'. by injection Hv' as ->.
  - symmetry. apply not_elem_of_list_to_map.
    rewrite Hfst, (inv_elem_of s k Hdom), Hv. by intros [? ?].
Qed.

Lemma zip_diag {A} (xs : list A) : Forall (λ p, p.1 = p.2) (zip xs xs).
Proof. induction xs; constructor; done. Qed.

(** X9. Between well-formed stores [==] is equality of the three attributes:
    it returns true exactly when both stores have the same capacity, the
    same recency order and the same table.  In particular it is reflexive
    there. *)
Theorem eq_true_iff_same (s o : lru_dict (K:=K) (V:=V)) :
  inv s → inv o →
  (__eq__ s o = Return true ↔ s = o) ∧
  (__eq__ s o = Return false ↔ s ≠ o) ∧
  __eq__ s s = Return true.
Proof.
  intros (Hnds & Hdoms & _) (Hndo & Hdomo & _).
  destruct (collect_peek_pair (_stack s) s) as (xs & _ & Hfs & HFs).
  { intros k. by apply inv_elem_of. }
  destruct (collect_peek_pair (_stack o) o) as (ys & _ & Hfo & HFo).
  { intros k. by apply inv_elem_of. }
  assert (__eq__ s s = Return true) as Hrefl.
  { unfold __eq__. rewrite !bool_decide_eq_true_2 by done.
    rewrite <- Hfs, (all_items_eq_spec s s xs xs HFs HFs).
    by rewrite bool_decide_eq_true_2 by apply zip_diag. }
  assert (__eq__ s o = Return true → s = o) as Hsame.
  { unfold __eq__. case_bool_decide as Hsz; [|done].
    case_bool_decide as Hlen; [|done].
    rewrite <- Hfs, <- Hfo, (all_items_eq_spec s o xs ys HFs HFo).
    intros [= Hall%bool_decide_eq_true].
    assert (xs = ys) as <-.
    { apply zip_pairwise_eq; [|done].
      rewrite <- Hfs, <- Hfo, !length_fmap in Hlen. done. }
    pose proof (data_of_items s xs Hnds Hdoms Hfs HFs) as Hds.
    pose proof (data_of_items o xs Hndo Hdomo Hfo HFo) as Hdo.
    destruct s, o. cbn [__size _stack _data] in *. congruence. }
  assert (∃ b, __eq__ s o = Return b) as [b Hb].
  { unfold __eq__. case_bool_decide; [|by eexists].
    case_bool_decide; [|by eexists].
    rewrite <- Hfs, <- Hfo, (all_items_eq_spec s o xs ys HFs HFo).
    by eexists. }
  split_and!; [| |done].
  - split; [done | by intros <-].
  - split.
    + intros Hf Heq. subst o. rewrite Hrefl in Hf. done.
    + intros Hne. destruct b; [by apply Hsame in Hb | done].
Qed.

(** X10. Reading through the proxy gives what reading the store gives, the same
    value or the same [KeyError], but the proxy leaves the store as it is;
    its iteration is the recency order and its length the entry count. *)
Theorem proxied_peek_reads s k :
  inv s →
  (ProxiedPeek.__getitem__ k s).1 = (__getitem__ k s).1 ∧
  (ProxiedPeek.__getitem__ k s).2 = s ∧
  ProxiedPeek.__iter__ s = (Return (_stack s), s) ∧
  ProxiedPeek.__len__ s = (Return (Z.of_nat (length (_stack s))), s) ∧
  ∃ b, ProxiedPeek.__contains__ k s = (Return b, s) ∧
       (b = true ↔ ∃ v, (ProxiedPeek.__getitem__ k s).1 = Return v).
Proof.
  intros Hinv. unfold ProxiedPeek.__getitem__, ProxiedPeek.__iter__,
    ProxiedPeek.__len__, ProxiedPeek.__contains__.
  split_and!; [|apply peek_state|done|done|].
  - destruct (_data s !! k) as [v|] eqn:Hv.
    + rewrite (getitem_present s k v Hinv Hv).
      unfold peek, data_item, bind, get_data, ret. by rewrite Hv.
    + rewrite (getitem_absent s k Hinv Hv).
      unfold peek, data_item, bind, get_data, raise. by rewrite Hv.
  - eexists. split; [reflexivity|].
    rewrite bool_decide_eq_true.
    unfold peek, data_item, bind, get_data, ret, raise.
    destruct (_data s !! k) as [v|]; split; try done; eauto;
      by intros [? ?].
Qed.
Lemma elem_of_drop_l {A} (x : A) (n : nat) (l : list A) :
  x ∈ drop n l → x ∈ l.
Proof. intros Hx. rewrite <- (take_drop n l), elem_of_app. by right. Qed.

(** Writing a key that is not in a well-formed store. *)
Lemma setitem_fresh s k v :
  inv s → k ∉ _stack s →
  ∃ s1, __setitem__ k v s = (Return tt, s1) ∧ inv s1 ∧
    __size s1 = __size s ∧
    _stack s1 =
      drop (length (_stack s ++ [k]) - Z.to_nat (__size s)) (_stack s ++ [k]) ∧
    _data s1 !! k = Some v ∧
    (∀ k', k' ≠ k → k' ∈ _stack s1 → _data s1 !! k' = _data s !! k').
Proof.
  intros Hinv Hk. pose proof Hinv as (Hnd & Hdom & Hlen & Hsz).
  pose proof (setitem_inv s k v Hinv) as Hinv1.
  eexists. split; [by apply setitem_run|].
  rewrite (setitem_run s k v Hinv) in Hinv1. cbv zeta in *. cbn [snd] in *.
  rewrite (filter_ne_id k _ Hk) in *.
  pose proof Hinv1 as (Hnd1 & _).
  rewrite length_app in *. cbn [length] in *.
  destruct (bool_decide_reflect
              (Z.of_nat (length (_stack s) + 1) > __size s)) as [Hgt|Hle];
    cbn [__size _stack _data] in *.
  - destruct (_stack s) as [|k0 t] eqn:Hst; cbn [length] in *; [lia|].
    replace (S (length t) + 1 - Z.to_nat (__size s))%nat with 1%nat by lia.
    change (default k (head ((k0 :: t) ++ [k]))) with k0.
    assert (k0 ≠ k) as Hne.
    { intros ->. apply Hk. left. }
    split_and!; try done.
    + rewrite lookup_delete_ne, lookup_insert_eq; done.
    + intros k' Hk' Hin. rewrite lookup_delete_ne, lookup_insert_ne; try done.
      intros ->. change (drop 1 ((k' :: t) ++ [k])) with (t ++ [k]) in *.
      rewrite elem_of_app, list_elem_of_singleton in Hin.
      apply NoDup_cons in Hnd as [Hk't _]. by destruct Hin.
  - replace (length (_stack s) + 1 - Z.to_nat (__size s))%nat with 0%nat
      by lia.
    rewrite drop_0. split_and!; try done.
    + apply lookup_insert_eq.
    + intros k' Hk' _. by apply lookup_insert_ne.
Qed.

(** [update] with pairs whose keys are distinct and not yet in the store:
    the recency order is the tail of the old order followed by the new
    keys, cut to the capacity. *)
Lemma update_distinct (kvs : list (K * V)) s :
  inv s → NoDup kvs.*1 → (∀ k, k ∈ kvs.*1 → k ∉ _stack s) →
  ∃ s', update kvs s = (Return tt, s') ∧ inv s' ∧
    __size s' = __size s ∧
    _stack s' =
      drop (length (_stack s ++ kvs.*1) - Z.to_nat (__size s))
        (_stack s ++ kvs.*1) ∧
    (∀ k v, (k, v) ∈ kvs → k ∈ _stack s' → _data s' !! k = Some v) ∧
    (∀ k, k ∉ kvs.*1 → k ∈ _stack s' → _data s' !! k = _data s !! k).
Proof.
  revert s. induction kvs as [|[k v] kvs IH]; intros s Hinv Hnd Hfresh.
  - exists s. pose proof Hinv as (_ & _ & Hlen & _).
    split_and!; try done.
    + rewrite app_nil_r.
      replace (length (_stack s) - Z.to_nat (__size s))%nat with 0%nat
        by lia.
      done.
    + intros k v Hin. by apply elem_of_nil in Hin.
  - rewrite fmap_cons in Hnd, Hfresh. cbn [fst] in *.
    apply NoDup_cons in Hnd as [Hk Hnd].
    assert (k ∉ _stack s) as Hks by (apply Hfresh; left).
    destruct (setitem_fresh s k v Hinv Hks)
      as (s1 & Hrun & Hinv1 & Hsz1 & Hst1 & Hkv & Hold).
    assert (∀ k', k' ∈ _stack s1 → k' ∈ _stack s ∨ k' = k) as Hsub.
    { intros k' Hk'. rewrite Hst1 in Hk'. apply elem_of_drop_l in Hk'.
      rewrite elem_of_app, list_elem_of_singleton in Hk'. done. }
    destruct (IH s1 Hinv1 Hnd) as (s' & Hrun' & Hinv' & Hsz' & Hst' & Hnew & Hkeep).
    { intros k' Hk' Hin. destruct (Hsub k' Hin) as [Hin'| ->]; [|done].
      apply (Hfresh k'); [by right | done]. }
    exists s'. pose proof Hinv as (_ & _ & Hlen & _).
    split_and!; [|done|congruence| | |].
    + unfold update in *. cbn [for_ fst snd]. unfold bind.
      by rewrite Hrun.
    + rewrite Hst', Hst1, Hsz1.
      rewrite <- drop_app_le by (rewrite length_app; cbn [length]; lia).
      rewrite drop_drop, <- app_assoc. cbn [app].
      f_equal. rewrite length_drop, fmap_cons, !length_app.
      cbn [length]. lia.
    + intros k' v' Hin Hin'. apply elem_of_cons in Hin as [[= -> ->]|Hin].
      * rewrite Hkeep; done.
      * by apply Hnew.
    + intros k' Hk' Hin'. rewrite fmap_cons, not_elem_of_cons in Hk'.
      cbn [fst] in Hk'. destruct Hk' as [Hne Hk'].
      rewrite Hkeep by done. apply Hold; [done|].
      rewrite Hst' in Hin'. apply elem_of_drop_l in Hin'.
      rewrite elem_of_app in Hin'. by destruct Hin'.
Qed.

Lemma collect_items_exact (kvs : list (K * V)) s :
  Forall (λ kv, _data s !! kv.1 = Some kv.2) kvs →
  collect kvs.*1 (λ k, bind (peek k) (λ v, ret (k, v))) s = (Return kvs, s).
Proof.
  induction 1 as [|[k v] kvs Hk _ IH]; [done|].
  cbn [fmap list_fmap collect fst]. cbn [fst snd] in Hk.
  unfold bind at 1. unfold peek, data_item, get_data, bind, ret.
  rewrite Hk.
  change (bind (collect kvs.*1 (λ k, bind (peek k) (λ v, ret (k, v))))
            (λ ys, ret ((k, v) :: ys)) s = (Return ((k, v) :: kvs), s)).
  unfold bind at 1. by rewrite IH.
Qed.

(** X11. Construction from pairs with distinct keys keeps the newest ones: the
    constructor returns, and the items of the new store are the last
    [size] pairs of [existing], in their order; a key is in the store
    exactly if it is the key of one of these. *)
Theorem init_keeps_newest (sz : Z) (kvs : list (K * V)) :
  1 ≤ sz → NoDup kvs.*1 →
  ∃ s, __init__ sz (Some kvs) = Return s ∧
    __size s = sz ∧
    items s = (Return (drop (length kvs - Z.to_nat sz) kvs), s) ∧
    ∀ k, __contains__ k s =
         (Return (bool_decide (k ∈ (drop (length kvs - Z.to_nat sz) kvs).*1)),
          s).
Proof.
  intros Hsz Hnd. unfold __init__. rewrite bool_decide_eq_false_2 by lia.
  assert (inv (Build sz [] (∅ : gmap K V))) as Hempty.
  { split_and!; cbn [__size _stack _data length]; [|done|lia|done].
    apply NoDup_nil_2. }
  destruct (update_distinct kvs _ Hempty Hnd)
    as (s & -> & Hinv & Hsize & Hst & Hnew & _).
  { intros k _. apply not_elem_of_nil. }
  cbn [__size _stack _data] in *. rewrite app_nil_l, length_fmap in Hst.
  rewrite <- fmap_drop in Hst.
  exists s. split_and!; [done | done | |].
  - unfold items, __iter__, bind at 1, get_stack. rewrite Hst.
    apply collect_items_exact. apply Forall_forall. intros [k v] Hin.
    apply Hnew.
    + by apply elem_of_drop_l in Hin.
    + rewrite Hst. apply list_elem_of_fmap. by exists (k, v).
  - intros k. unfold __contains__, bind, get_data, ret. do 2 f_equal.
    apply bool_decide_ext. destruct Hinv as (_ & Hdom & _).
    by rewrite <- (inv_elem_of s k Hdom), Hst.
Qed.
(** [update] with pairs that all fit, keys possibly repeated: nothing is
    evicted and the table is the old one overwritten with the pairs in
    their order. *)
Lemma update_fits (kvs : list (K * V)) s :
  inv s → Z.of_nat (length (_stack s) + length kvs) ≤ __size s →
  ∃ s', update kvs s = (Return tt, s') ∧ inv s' ∧
    __size s' = __size s ∧
    _data s' = foldl (λ d kv, <[kv.1 := kv.2]> d) (_data s) kvs.
Proof.
  revert s. induction kvs as [|[k v] kvs IH]; intros s Hinv Hlen.
  - by exists s.
  - pose proof (setitem_inv s k v Hinv) as Hinv1.
    pose proof (length_newest_le (_stack s) k) as Hle.
    cbn [length] in Hlen.
    assert (__setitem__ k v s =
            (Return tt,
             Build (__size s) (filter (λ x, x ≠ k) (_stack s) ++ [k])
               (<[k := v]> (_data s)))) as Hrun.
    { rewrite (setitem_run s k v Hinv). cbv zeta.
      by rewrite bool_decide_eq_false_2 by lia. }
    rewrite Hrun in Hinv1. cbn [snd] in Hinv1.
    destruct (IH _ Hinv1) as (s' & Hrun' & Hinv' & Hsz' & Hd').
    { cbn [__size _stack]. lia. }
    exists s'. split_and!; try done.
    unfold update in *. cbn [for_ fst snd]. unfold bind.
    by rewrite Hrun.
Qed.

Lemma foldl_insert_reverse (kvs : list (K * V)) (d : gmap K V) :
  foldl (λ d' kv, <[kv.1 := kv.2]> d') d kvs =
  foldr (λ kv d', <[kv.1 := kv.2]> d') d (reverse kvs).
Proof.
  revert d. induction kvs as [|kv kvs IH]; intros d; [done|].
  cbn [foldl]. by rewrite reverse_cons, foldr_app, IH.
Qed.

(** X12. Construction from at most [size] pairs returns and evicts nothing: the
    table is the dictionary of the pairs, where for a repeated key the
    last pair counts, and every key of the pairs is in the store. *)
Theorem init_fits (sz : Z) (kvs : list (K * V)) :
  1 ≤ sz → Z.of_nat (length kvs) ≤ sz →
  ∃ s, __init__ sz (Some kvs) = Return s ∧
    __size s = sz ∧
    _data s = list_to_map (reverse kvs) ∧
    ∀ k, k ∈ kvs.*1 → __contains__ k s = (Return true, s).
Proof.
  intros Hsz Hlen. unfold __init__. rewrite bool_decide_eq_false_2 by lia.
  assert (inv (Build sz [] (∅ : gmap K V))) as Hempty.
  { split_and!; cbn [__size _stack _data length]; [|done|lia|done].
    apply NoDup_nil_2. }
  destruct (update_fits kvs _ Hempty) as (s & -> & Hinv & Hsize & Hd).
  { cbn [__size _stack length]. lia. }
  cbn [__size _data] in *. rewrite foldl_insert_reverse in Hd.
  exists s. split_and!; try done.
  intros k Hk. unfold __contains__, bind, get_data, ret. do 2 f_equal.
  apply bool_decide_eq_true_2.
  assert (_data s = list_to_map (reverse kvs)) as Hd' by exact Hd.
  apply list_elem_of_fmap in Hk as ([k' v] & -> & Hin). cbn [fst].
  apply elem_of_reverse in Hin.
  assert (k' ∈ (reverse kvs).*1) as Hin'
    by (apply list_elem_of_fmap; by exists (k', v)).
  destruct (_data s !! k') as [w|] eqn:Hw; [by eexists|].
  rewrite Hd' in Hw. by apply not_elem_of_list_to_map in Hw.
Qed.

(** The closed form of [resize] on a store whose recency order and table
    agree. *)
Lemma resize_run s n :
  NoDup (_stack s) → dom (_data s) = list_to_set (_stack s) → 1 ≤ n →
  resize n s =
    (Return tt,
     let m := (length (_stack s) - Z.to_nat n)%nat in
     Build n (drop m (_stack s))
       (foldl (λ d x, delete x d) (_data s) (take m (_stack s)))).
Proof.
  intros Hnd Hdom Hn.
  destruct (decide (n < Z.of_nat (length (_stack s)))) as [Hlt|Hge].
  - by apply resize_truncates.
  - rewrite resize_fits by lia. cbv zeta.
    replace (length (_stack s) - Z.to_nat n)%nat with 0%nat by lia.
    by rewrite drop_0, take_0.
Qed.

(** Popping the oldest key [m] times. *)
Lemma evict_oldest_run (m : nat) s :
  NoDup (_stack s) → dom (_data s) = list_to_set (_stack s) →
  (m ≤ length (_stack s))%nat →
  for_ (replicate m tt) (λ _, bind (stack_item 0) __delitem__) s =
    (Return tt,
     Build (__size s) (drop m (_stack s))
       (foldl (λ d x, delete x d) (_data s) (take m (_stack s)))).
Proof.
  revert s. induction m as [|m IH]; intros s Hnd Hdom Hm.
  - cbn [replicate for_ take foldl]. by rewrite drop_0, store_eta.
  - assert (∀ k, k ∈ _stack s → is_Some (_data s !! k)) as Hall
      by (intros k; by apply inv_elem_of).
    destruct (_stack s) as [|k0 t] eqn:Hst; cbn [length] in Hm; [lia|].
    assert (k0 ∈ _stack s) as Hin by (rewrite Hst; left).
    assert (__delitem__ k0 s =
            (Return tt, Build (__size s) t (delete k0 (_data s)))) as Hdel.
    { rewrite delitem_present;
        [| by rewrite Hst | done | apply Hall; left].
      rewrite Hst. apply NoDup_cons in Hnd as [Hk0 _].
      rewrite filter_cons_False by (intros Hne; by apply Hne).
      by rewrite filter_ne_id. }
    cbn [replicate for_]. unfold bind at 1. unfold bind at 1.
    unfold stack_item, bind at 1, get_stack, ret. rewrite Hst, item_0.
    cbn [head]. rewrite Hdel, IH; cbn [__size _stack _data].
    + done.
    + by apply NoDup_cons in Hnd as [_ ?].
    + rewrite dom_delete_L, Hdom, list_to_set_cons.
      apply NoDup_cons in Hnd as [Hk0 _].
      assert (k0 ∉ (list_to_set t : gset K))
        by by rewrite elem_of_list_to_set.
      set_solver.
    + lia.
Qed.

(** X13. The batch removal of [resize] is what its comment says it replaces:
    on a well-formed store, [resize] to a valid size ends in the state
    reached by setting the size and then deleting the least recently used
    key, one at a time, until the entries fit. *)
Theorem resize_is_repeated_eviction s n :
  inv s → 1 ≤ n →
  resize n s =
    bind (set_size n)
      (λ _, for_ (replicate (length (_stack s) - Z.to_nat n) tt)
              (λ _, bind (stack_item 0) __delitem__)) s.
Proof.
  intros (Hnd & Hdom & _) Hn. rewrite resize_run by done.
  unfold bind at 1, set_size.
  rewrite evict_oldest_run; cbn [__size _stack _data]; [done..|lia].
Qed.

(** X14. Shrinking in two steps is shrinking at once: on a well-formed store a
    [resize] to [n] followed by one to [m <= n] ends like a single
    [resize] to [m]. *)
Theorem resize_resize s n m :
  inv s → 1 ≤ m → m ≤ n →
  resize m (resize n s).2 = resize m s.
Proof.
  intros Hinv Hm Hmn. pose proof Hinv as (Hnd & Hdom & _).
  pose proof (resize_inv s n Hinv) as (Hnd1 & Hdom1 & _).
  rewrite (resize_run _ m Hnd1 Hdom1 Hm), (resize_run s m Hnd Hdom Hm).
  rewrite (resize_run s n Hnd Hdom) by lia.
  cbv zeta. cbn [snd __size _stack _data]. do 2 f_equal.
  - rewrite drop_drop, length_drop. f_equal. lia.
  - rewrite <- foldl_app, take_take_drop, length_drop. do 2 f_equal. lia.
Qed.
(** X15. On a well-formed store with at least one entry both accessors return
    without changing the store; the keys they return are in the store, and
    they are the same key exactly when the store has a single entry. *)
Theorem accessors_nonempty s :
  inv s → _stack s ≠ [] →
  ∃ a b, lru s = (Return a, s) ∧ mru s = (Return b, s) ∧
    __contains__ a s = (Return true, s) ∧
    __contains__ b s = (Return true, s) ∧
    (a = b ↔ (filled s).1 = Return 1).
Proof.
  intros (Hnd & Hdom & _) Hne.
  assert (∀ k, k ∈ _stack s → __contains__ k s = (Return true, s)) as Hc.
  { intros k Hk. unfold __contains__, bind, get_data, ret. do 2 f_equal.
    apply bool_decide_eq_true_2. by apply inv_elem_of. }
  unfold lru, mru, filled, __len__, stack_item, bind, get_stack, ret.
  rewrite item_0, item_m1.
  destruct (_stack s) as [|a t] eqn:Hst; [done|].
  destruct (last (a :: t)) as [b|] eqn:Hlast;
    [|by apply last_None in Hlast].
  exists a, b. cbn [head fst]. split_and!; [done | done | | |].
  - apply Hc. left.
  - apply Hc. rewrite <- Hst. rewrite <- Hst in Hlast.
    apply last_Some in Hlast as [l ->].
    rewrite elem_of_app, list_elem_of_singleton. by right.
  - apply NoDup_cons in Hnd as [Ha _]. destruct t as [|a' t'].
    + cbn in Hlast. injection Hlast as <-. done.
    + split.
      * intros <-. exfalso. apply Ha.
        change (last (a :: a' :: t')) with (last (a' :: t')) in Hlast.
        apply last_Some in Hlast as [l ->].
        rewrite elem_of_app, list_elem_of_singleton. by right.
      * cbn [length]. intros [= Hlen]. lia.
Qed.

(** X16. Deleting the least recently used key of a well-formed store makes the
    next oldest key the least recently used one. *)
Theorem delete_lru_promotes_next s k0 k1 :
  inv s → (lru s).1 = Return k0 → _stack s !! 1%nat = Some k1 →
  ∃ s', __delitem__ k0 s = (Return tt, s') ∧
    lru s' = (Return k1, s') ∧
    _stack s = k0 :: _stack s'.
Proof.
  intros (Hnd & Hdom & _) Hlru Hk1.
  assert (∀ k, k ∈ _stack s → is_Some (_data s !! k)) as Hall
    by (intros k; by apply inv_elem_of).
  unfold lru, stack_item, bind, get_stack, ret, raise in Hlru.
  rewrite item_0 in Hlru.
  destruct (_stack s) as [|a [|b t]] eqn:Hst; try done.
  cbn in Hlru, Hk1. injection Hlru as ->. injection Hk1 as ->.
  eexists. split.
  { apply delitem_present; rewrite ?Hst; [done | left | apply Hall; left]. }
  cbn [_stack]. rewrite Hst. apply NoDup_cons in Hnd as [Hk0 _].
  rewrite filter_cons_False by (intros Hne; by apply Hne).
  rewrite filter_ne_id by done. split; [|done].
  unfold lru, stack_item, bind, get_stack, ret. cbn [_stack].
  by rewrite item_0.
Qed.
End more_facts.

(** * The further properties on the example stores *)

Section more_examples.
Import LruDict Examples MoreExamples.

Ltac evaluate := apply (bool_decide_unpack _); vm_compute; exact I.

Lemma delete_correct_witness :
  inv store_123 ∧ _data store_123 !! 2 = Some 20 ∧
  ∃ s', __delitem__ 2 store_123 = (Return tt, s') ∧
    _stack s' = [1; 3] ∧ __contains__ 2 s' = (Return false, s').
Proof.
  assert (inv store_123) as Hinv by evaluate.
  assert (_data store_123 !! 2 = Some 20) as Hv by reflexivity.
  split_and!; [exact Hinv | exact Hv |].
  destruct (delete_correct store_123 2 20 Hinv Hv)
    as (s' & Hrun & Hst & _ & _ & _ & Hc & _).
  exists s'. split_and!; [exact Hrun | | exact Hc].
  rewrite Hst. reflexivity.
Defined.


Lemma filled_counts_table_witness :
  inv store_123 ∧
  filled store_123 =
    (Return (Z.of_nat (base.size (_data store_123))), store_123).
Proof.
  assert (inv store_123) as Hinv by evaluate.
  split; [exact Hinv|].
  destruct (filled_counts_table store_123 Hinv) as [Hf _]. exact Hf.
Defined.

Lemma make_key_newest_permutes_witness :
  1 ∈ _stack store_dup ∧
  ∃ s', _make_key_newest 1 store_dup = (Return tt, s') ∧
    _stack s' = [2; 1; 1] ∧ last (_stack s') = Some 1.
Proof.
  assert (1 ∈ _stack store_dup) as Hin by evaluate.
  split; [exact Hin|].
  destruct (make_key_newest_permutes store_dup 1 Hin)
    as (s' & i & Hrun & Hi & Hst & _ & Hlast & _).
  exists s'. split_and!; [exact Hrun | | exact Hlast].
  rewrite Hst. vm_compute in Hi. injection Hi as <-. reflexivity.
Defined.

Lemma read_newest_is_noop_witness :
  inv store_123 ∧ (mru store_123).1 = Return 3 ∧
  ∃ v, __getitem__ 3 store_123 = (Return v, store_123).
Proof.
  assert (inv store_123) as Hinv by evaluate.
  assert ((mru store_123).1 = Return 3) as Hmru by reflexivity.
  split_and!; [exact Hinv | exact Hmru |].
  destruct (read_newest_is_noop store_123 3 Hinv Hmru) as (v & Hrun & _).
  exists v. exact Hrun.
Defined.

Lemma rewrite_is_read_witness :
  inv store_123 ∧ _data store_123 !! 1 = Some 10 ∧
  (__setitem__ 1 10 store_123).2 = (__getitem__ 1 store_123).2.
Proof.
  assert (inv store_123) as Hinv by evaluate.
  assert (_data store_123 !! 1 = Some 10) as Hv by reflexivity.
  split_and!; [exact Hinv | exact Hv |].
  exact (rewrite_is_read store_123 1 10 Hinv Hv).
Defined.

Lemma write_delete_roundtrip_witness :
  inv store_12 ∧ _data store_12 !! 5 = None ∧
  Z.of_nat (length (_stack store_12)) < __size store_12 ∧
  __delitem__ 5 (__setitem__ 5 50 store_12).2 = (Return tt, store_12).
Proof.
  assert (inv store_12) as Hinv by evaluate.
  assert (_data store_12 !! 5 = None) as Hk by reflexivity.
  assert (Z.of_nat (length (_stack store_12)) < __size store_12) as Hroom
    by (simpl; lia).
  split_and!; [exact Hinv | exact Hk | exact Hroom |].
  exact (write_delete_roundtrip store_12 5 50 Hinv Hk Hroom).
Defined.

Lemma last_write_wins_witness :
  inv store_123 ∧
  __setitem__ 4 41 (__setitem__ 4 40 store_123).2 =
  __setitem__ 4 41 store_123.
Proof.
  assert (inv store_123) as Hinv by evaluate.
  split; [exact Hinv|].
  exact (last_write_wins store_123 4 40 41 Hinv).
Defined.

Lemma eq_true_iff_same_witness :
  inv store_123 ∧ inv store_231 ∧
  (__eq__ store_123 store_231 = Return false ↔ store_123 ≠ store_231) ∧
  __eq__ store_123 store_123 = Return true.
Proof.
  assert (inv store_123) as Hinv by evaluate.
  assert (inv store_231) as Hinv' by evaluate.
  split_and!; [exact Hinv | exact Hinv' | |];
    destruct (eq_true_iff_same store_123 store_231 Hinv Hinv')
      as (_ & Hne & Hrefl); assumption.
Defined.

Lemma proxied_peek_reads_witness :
  inv store_123 ∧
  (ProxiedPeek.__getitem__ 1 store_123).1 = (__getitem__ 1 store_123).1 ∧
  (ProxiedPeek.__getitem__ 1 store_123).2 = store_123.
Proof.
  assert (inv store_123) as Hinv by evaluate.
  split; [exact Hinv|].
  destruct (proxied_peek_reads store_123 1 Hinv) as (Hval & Hst & _).
  auto.
Defined.

Lemma init_keeps_newest_witness :
  1 ≤ 5 ∧ NoDup pairs_0_5.*1 ∧
  ∃ s, __init__ 5 (Some pairs_0_5) = Return s ∧
    items s = (Return [(1, 1); (2, 2); (3, 3); (4, 4); (5, 5)], s) ∧
    __contains__ 0 s = (Return false, s).
Proof.
  assert (NoDup pairs_0_5.*1) as Hnd by evaluate.
  split_and!; [lia | exact Hnd |].
  destruct (init_keeps_newest 5 pairs_0_5) as (s & Hrun & _ & Hit & Hc);
    [lia | exact Hnd |].
  exists s. split_and!; [exact Hrun | exact Hit | exact (Hc 0)].
Defined.

Lemma init_fits_witness :
  1 ≤ 10 ∧ Z.of_nat (length [(1, 10); (2, 20); (1, 11)]) ≤ 10 ∧
  ∃ s, __init__ 10 (Some [(1, 10); (2, 20); (1, 11)]) = Return s ∧
    _data s !! 1 = Some 11 ∧ _data s !! 2 = Some 20.
Proof.
  split_and!; [lia | simpl; lia |].
  destruct (init_fits (K:=Z) (V:=Z) 10 [(1, 10); (2, 20); (1, 11)])
    as (s & Hrun & _ & Hd & _); [lia | simpl; lia |].
  exists s. split_and!; [exact Hrun | |]; rewrite Hd; reflexivity.
Defined.

Lemma resize_is_repeated_eviction_witness :
  inv store_123 ∧ 1 ≤ 1 ∧
  resize 1 store_123 =
    bind (set_size 1)
      (λ _, for_ (replicate 2 tt) (λ _, bind (stack_item 0) __delitem__))
      store_123.
Proof.
  assert (inv store_123) as Hinv by evaluate.
  split_and!; [exact Hinv | lia |].
  apply (resize_is_repeated_eviction store_123 1 Hinv). lia.
Defined.

Lemma resize_resize_witness :
  inv store_123 ∧ 1 ≤ 1 ∧ 1 ≤ 2 ∧
  resize 1 (resize 2 store_123).2 = resize 1 store_123.
Proof.
  assert (inv store_123) as Hinv by evaluate.
  split_and!; [exact Hinv | lia | lia |].
  apply (resize_resize store_123 2 1 Hinv); lia.
Defined.

Lemma accessors_nonempty_witness :
  inv store_123 ∧ _stack store_123 ≠ [] ∧
  ∃ a b, lru store_123 = (Return a, store_123) ∧
    mru store_123 = (Return b, store_123) ∧
    (a = b ↔ (filled store_123).1 = Return 1).
Proof.
  assert (inv store_123) as Hinv by evaluate.
  assert (_stack store_123 ≠ []) as Hne by (simpl; discriminate).
  split_and!; [exact Hinv | exact Hne |].
  destruct (accessors_nonempty store_123 Hinv Hne)
    as (a & b & Hlru & Hmru & _ & _ & Hab).
  exists a, b. auto.
Defined.

Lemma delete_lru_promotes_next_witness :
  inv store_123 ∧ (lru store_123).1 = Return 1 ∧
  _stack store_123 !! 1%nat = Some 2 ∧
  ∃ s', __delitem__ 1 store_123 = (Return tt, s') ∧
    lru s' = (Return 2, s').
Proof.
  assert (inv store_123) as Hinv by evaluate.
  assert ((lru store_123).1 = Return 1) as Hlru by reflexivity.
  assert (_stack store_123 !! 1%nat = Some 2) as Hk1 by reflexivity.
  split_and!; [exact Hinv | exact Hlru | exact Hk1 |].
  destruct (delete_lru_promotes_next store_123 1 2 Hinv Hlru Hk1)
    as (s' & Hrun & Hl & _).
  exists s'. auto.
Defined.
End more_examples.
